(** * Banana Squad dashboard: event router, job store and detail cache

    A shallow embedding of the two dashboard clients of the repository:

    - [Dashboard]: the v2 client ("Form + Gallery + WebSocket"), with the
      job catalog [jobList], the detail cache [jobDetailCache], the
      debounced search and the refine workflow;
    - [Legacy]: the first client (bot/web/static/app.js), whose job store
      is the object [jobs] keyed by job id.

    JavaScript values are modelled as follows.  A property that may be
    [undefined] is an [option]; reading a property of [undefined] throws a
    [TypeError], so handlers live in a state monad with exceptions in which
    the mutations made before a throw stay in the state.  An object used as
    a map ([jobDetailCache], [jobs]) is a [gmap] over its own properties.
    A read [obj[k]] also sees the names that [obj] inherits from
    [Object.prototype] ([inherited]): the cache test of the v2 client
    takes them into account; the first client goes on to read and write
    properties of the inherited value, which is not modelled, so what is
    proved about a lookup in [jobs] is proved for job ids that are not
    such names.  The DOM is reduced to what the handlers read back or
    what the properties below are about; HTML strings are not built, and
    the element ids that [renderGallery] writes are taken as written,
    which is what the browser makes of them when the job ids are [plain].
    The host (clock, timers, in-flight requests, console) is an explicit
    part of the state.  The refine workflow of the v2 client acts on the
    rendered detail pane and is left out. *)

From Stdlib Require Import String List ZArith Lia Bool Arith.
From stdpp Require Import base option gmap strings list.
Import ListNotations.

Local Open Scope string_scope.

(** ** The exception monad over a mutable state *)

Inductive JsError :=
  | TypeError (what : string)
  | SyntaxError (what : string).

Inductive Outcome (A : Type) :=
  | Done (a : A)
  | Thrown (e : JsError).
Arguments Done {A} a.
Arguments Thrown {A} e.

Definition JS (S A : Type) : Type := S -> Outcome A * S.

Definition ret {S A} (a : A) : JS S A := fun s => (Done a, s).

Definition bind {S A B} (c : JS S A) (k : A -> JS S B) : JS S B :=
  fun s =>
    match c s with
    | (Done a, s') => k a s'
    | (Thrown e, s') => (Thrown e, s')
    end.

Definition throw {S A} (e : JsError) : JS S A := fun s => (Thrown e, s).

Definition gets {S A} (f : S -> A) : JS S A := fun s => (Done (f s), s).

Definition modify {S} (f : S -> S) : JS S unit := fun s => (Done tt, f s).

(** [try { c } catch (err) { h err }] *)
Definition try_catch {S A} (c : JS S A) (h : JsError -> JS S A) : JS S A :=
  fun s =>
    match c s with
    | (Done a, s') => (Done a, s')
    | (Thrown e, s') => h e s'
    end.

(** Calling an [async] function: its body runs up to the first [await]; an
    exception inside it rejects the returned promise and never reaches the
    caller. *)
Definition async {S} (c : JS S unit) : JS S unit :=
  fun s => (Done tt, snd (c s)).

(** The state in which a handler leaves the page, returning or throwing. *)
Definition exec {S A} (c : JS S A) (s : S) : S := snd (c s).

Arguments ret {S A} a s /.
Arguments bind {S A B} c k s /.
Arguments throw {S A} e s /.
Arguments gets {S A} f s /.
Arguments modify {S} f s /.
Arguments try_catch {S A} c h s /.
Arguments async {S} c s /.

Definition when {S} (b : bool) (c : JS S unit) : JS S unit :=
  if b then c else ret tt.


Declare Scope js_scope.
Delimit Scope js_scope with js.
Notation "x <- c ;; k" := (bind c (fun x => k))
  (at level 100, c at next level, right associativity) : js_scope.
Notation "c ;; k" := (bind c (fun _ => k))
  (at level 100, right associativity) : js_scope.
Local Open Scope js_scope.

(** [preserves obs c]: running [c] never changes the observation [obs],
    whether [c] returns or throws. *)
Definition preserves {S A X} (obs : S -> X) (c : JS S A) : Prop :=
  forall s, obs (exec c s) = obs s.

(** [maintains Q c]: when [Q] holds before [c] runs, it holds after,
    whether [c] returns or throws. *)
Definition maintains {S A} (Q : S -> Prop) (c : JS S A) : Prop :=
  forall s, Q s -> Q (exec c s).

(** [never_throws c]: [c] returns from every state. *)
Definition never_throws {S A} (c : JS S A) : Prop :=
  forall s, exists a, fst (c s) = Done a.

(** ** JavaScript helpers *)

(** [s || dflt] on a string-or-undefined value: the empty string is falsy. *)
Definition or_else (v : option string) (dflt : string) : string :=
  match v with
  | Some s => if s =? "" then dflt else s
  | None => dflt
  end.

(** The names that every object inherits from [Object.prototype].  For
    an object literal [obj] and such a name [k], [obj[k]] is a function
    (for [__proto__], the prototype itself), hence truthy, also when
    [obj] has no own property [k]; and [delete obj[k]] leaves it there. *)
Definition objectPrototypeNames : list string :=
  ["constructor"; "hasOwnProperty"; "isPrototypeOf"; "propertyIsEnumerable";
   "toLocaleString"; "toString"; "valueOf"; "__proto__";
   "__defineGetter__"; "__defineSetter__";
   "__lookupGetter__"; "__lookupSetter__"].

Definition inherited (k : string) : bool :=
  existsb (String.eqb k) objectPrototypeNames.

(** Letters, digits, [-] and [_]: the characters that an HTML attribute
    value written without escaping keeps as they are. *)
Definition is_id_char (c : Ascii.ascii) : bool :=
  let n := Ascii.nat_of_ascii c in
  (((48 <=? n) && (n <=? 57)) || ((65 <=? n) && (n <=? 90)) ||
   ((97 <=? n) && (n <=? 122)) || (n =? 45) || (n =? 95))%nat.

(** A job id that reads back from [id="detail-${job_id}"] as it was
    written: not empty, and made of such characters only. *)
Fixpoint id_chars (s : string) : bool :=
  match s with
  | EmptyString => true
  | String c r => is_id_char c && id_chars r
  end.

Definition plain (job_id : string) : bool :=
  negb (job_id =? "") && id_chars job_id.

(** [Array.prototype.findIndex]: [-1] when nothing matches. *)
Fixpoint findIndex {A} (p : A -> bool) (l : list A) : Z :=
  match l with
  | [] => (-1)%Z
  | x :: r =>
      if p x then 0%Z
      else let k := findIndex p r in
           if (k <? 0)%Z then (-1)%Z else (k + 1)%Z
  end.

(** [===] between a string-or-undefined value and a string literal. *)
Definition is_str (v : option string) (lit : string) : bool :=
  match v with
  | Some s => s =? lit
  | None => false
  end.

(** [arr.slice(-n)]: the last [n] elements. *)
Definition slice_last {A} (n : nat) (l : list A) : list A :=
  skipn (length l - n) l.

(** ** The event envelope *)

Record ScoreCard := mkScoreCard {
  faithfulness : Z;
  conciseness : Z;
  readability : Z;
  aesthetics : Z;
  total : Z;
}.

(** [event.data].  Every property may be missing.  [d_scores = None] stands
    for a [scores] value on which the score rendering throws (missing, or
    lacking one of the numeric dimensions). *)
Record EventData := mkData {
  d_prompt : option string;
  d_stage : option string;
  d_agent : option string;
  d_message : option string;
  d_variant : option string;
  d_error : option string;
  d_file_path : option string;
  d_index : option Z;
  d_scores : option ScoreCard;
  d_rank : option Z;
  d_review : option string;
}.

Definition noData : EventData :=
  mkData None None None None None None None None None None None.

(** The envelope after [const { type, job_id, data, timestamp } = event].
    [type] and [job_id] are strings (an absent [type] matches no [case],
    like any unrecognised string); [data = None] is [undefined] or [null]. *)
Record Event := mkEvent {
  type : string;
  ev_job_id : string;
  data : option EventData;
  timestamp : option string;
}.

(** [data.p]: a [TypeError] when [data] is [undefined]. *)
Definition prop {S A} (d : option EventData) (p : EventData -> A) : JS S A :=
  match d with
  | Some o => ret (p o)
  | None => throw (TypeError "Cannot read properties of undefined")
  end.

(** The [case] labels of [switch (type)]. *)
Inductive EventType :=
  | job_started | stage_changed | agent_message | progress
  | image_generated | variant_scored | image_refined
  | job_completed | job_failed | unrecognised.

Definition eventType (t : string) : EventType :=
  if t =? "job_started" then job_started
  else if t =? "stage_changed" then stage_changed
  else if t =? "agent_message" then agent_message
  else if t =? "progress" then progress
  else if t =? "image_generated" then image_generated
  else if t =? "variant_scored" then variant_scored
  else if t =? "image_refined" then image_refined
  else if t =? "job_completed" then job_completed
  else if t =? "job_failed" then job_failed
  else unrecognised.

(** An agent-log entry; [time] is the instant that
    [new Date(timestamp).toLocaleTimeString("sv-SE")] formats. *)
Record LogEntry := mkLog {
  agent : option string;
  message : option string;
  time : option string;
}.

(** ** The pipeline view, shared by both clients *)

Record StageDef := mkStageDef { key : string; icon : string; label : string }.

Definition STAGES : list StageDef :=
  [ mkStageDef "research" "🔍" "Analys";
    mkStageDef "prompt_crafting" "✏️" "Promptdesign";
    mkStageDef "generating" "🎨" "Bildgenerering";
    mkStageDef "evaluating" "⭐" "Utvärdering" ].

(** One rendered [<div class="stage">]. *)
Record StageView := mkStageView {
  sv_icon : string;
  iconClass : string;
  sv_label : string;
  labelClass : string;
}.

Definition renderStage (stageIndex : Z) (isFailed isComplete : bool)
    (i : nat) (s : StageDef) : StageView :=
  let i := Z.of_nat i in
  let iconClass :=
    if isFailed && (i =? stageIndex)%Z then "failed"
    else if isComplete || (i <? stageIndex)%Z then "done"
    else if (i =? stageIndex)%Z then "active"
    else "pending" in
  let labelClass :=
    if (i =? stageIndex)%Z && negb isComplete then "active" else "" in
  mkStageView (icon s) iconClass (label s) labelClass.

(** The value assigned to [$stages.innerHTML] by [renderPipeline]. *)
Definition pipelineHTML (currentStage : option string) : list StageView :=
  let stageIndex :=
    findIndex (fun s => is_str currentStage (key s)) STAGES in
  let isFailed := is_str currentStage "failed" in
  let isComplete := is_str currentStage "complete" in
  imap (renderStage stageIndex isFailed isComplete) STAGES.

Definition iconClasses (v : list StageView) : list string := map iconClass v.

(** ** The host: clock, timers, network and console *)

Inductive Callback := cb_connect | cb_loadJobs.

Record Timer := mkTimer { t_id : nat; t_due : nat; t_cb : Callback }.

Inductive Request :=
  | GET_jobs (params : list (string * string))
  | GET_job (jobId : string).

Inductive ConsoleArg :=
  | caught (err : JsError)
  | rejected.

(** [sent] is the trace of requests issued so far, oldest first, each with
    the clock at which [fetch] was called and its sequence number;
    [inflight] holds those whose reply has not been delivered yet. *)
Record Host := mkHost {
  clock : nat;
  timers : list Timer;
  nextTimer : nat;
  inflight : list (nat * Request);
  nextReq : nat;
  sent : list (nat * nat * Request);
  console : list (string * ConsoleArg);
}.

Definition host0 : Host := mkHost 0 [] 1 [] 0 [] [].

Definition log_error (msg : string) (a : ConsoleArg) (h : Host) : Host :=
  mkHost (clock h) (timers h) (nextTimer h) (inflight h) (nextReq h)
         (sent h) (console h ++ [(msg, a)]).

Class HasHost (S : Type) := {
  get_host : S -> Host;
  set_host : Host -> S -> S;
}.

Section HostCalls.
Context {S : Type} `{HasHost S}.

Definition on_host (f : Host -> Host) : JS S unit :=
  modify (fun s => set_host (f (get_host s)) s).

(** [setTimeout(cb, delay)]: returns the id of the new timer. *)
Definition setTimeout (cb : Callback) (delay : nat) : JS S nat :=
  id <- gets (fun s => nextTimer (get_host s)) ;;
  on_host (fun h =>
    mkHost (clock h) (timers h ++ [mkTimer id (clock h + delay) cb])
           (Datatypes.S id) (inflight h) (nextReq h) (sent h) (console h)) ;;
  ret id.

(** [clearTimeout(id)]; [clearTimeout(null)] does nothing. *)
Definition clearTimeout (id : option nat) : JS S unit :=
  match id with
  | None => ret tt
  | Some i =>
      on_host (fun h =>
        mkHost (clock h) (List.filter (fun t => negb (t_id t =? i)%nat) (timers h))
               (nextTimer h) (inflight h) (nextReq h) (sent h) (console h))
  end.

(** [fetch(url)]: the request leaves at once; the reply comes later. *)
Definition fetch (r : Request) : JS S nat :=
  n <- gets (fun s => nextReq (get_host s)) ;;
  on_host (fun h =>
    mkHost (clock h) (timers h) (nextTimer h) (inflight h ++ [(n, r)])
           (Datatypes.S n) (sent h ++ [(clock h, n, r)]) (console h)) ;;
  ret n.

(** [console.error(msg, a)] *)
Definition console_error (msg : string) (a : ConsoleArg) : JS S unit :=
  on_host (log_error msg a).
End HostCalls.

(** The timer that fires next among those due at [t]: the smallest due
    time, the oldest timer on a tie. *)
Fixpoint earliest (t : nat) (l : list Timer) : option Timer :=
  match l with
  | [] => None
  | x :: r =>
      match earliest t r with
      | Some y =>
          if (t_due x <=? t)%nat && (t_due x <=? t_due y)%nat
          then Some x else Some y
      | None => if (t_due x <=? t)%nat then Some x else None
      end
  end.

(** The WebSocket behind the variable [ws], by its [readyState]. *)
Inductive Socket := ws_null | CONNECTING | OPEN | CLOSING | CLOSED.

(** [ws.close()]; the handlers that call it run only once [ws] holds a
    socket. *)
Definition close (w : Socket) : Socket :=
  match w with
  | CONNECTING | OPEN => CLOSING
  | other => other
  end.

(** What [e.data] is to [JSON.parse]: text on which it throws, the text
    of [null], or the text of a value that is read through its four
    envelope properties. *)
Inductive Payload :=
  | not_json (raw : string)
  | json_null
  | json_object (event : Event).

Definition JSON_parse {S} (p : Payload) : JS S (option Event) :=
  match p with
  | not_json raw => throw (SyntaxError raw)
  | json_null => ret None
  | json_object e => ret (Some e)
  end.

(** [const { type, job_id, data, timestamp } = event] *)
Definition destructure {S} (v : option Event) : JS S Event :=
  match v with
  | Some e => ret e
  | None => throw (TypeError "Cannot destructure null")
  end.

(** [str.trim()], on ASCII white space: strings are taken to hold no
    other white space (U+00A0, U+2028 and the like), which [trim] strips
    as well. *)
Definition is_space (c : Ascii.ascii) : bool :=
  let n := Ascii.nat_of_ascii c in
  ((n =? 32) || ((9 <=? n) && (n <=? 13)))%nat.

Fixpoint trimStart (s : string) : string :=
  match s with
  | String c r => if is_space c then trimStart r else s
  | EmptyString => EmptyString
  end.

Fixpoint trimEnd (s : string) : string :=
  match s with
  | String c r =>
      match trimEnd r with
      | EmptyString => if is_space c then EmptyString else String c EmptyString
      | r' => String c r'
      end
  | EmptyString => EmptyString
  end.

Definition trim (s : string) : string := trimEnd (trimStart s).

(** * The v2 dashboard (Form + Gallery + WebSocket) *)

Module Dashboard.

(** An entry of [jobList], as served by [GET /api/jobs] or built by the
    [job_started] handler.  [stage] is what the last assignment stored,
    which is [undefined] when a [stage_changed] event carries no stage. *)
Record JobSummary := mkJob {
  job_id : string;
  prompt : string;
  stage : option string;
  created_at : option string;
  completed_at : option string;
  image_count : nat;
  winner : option string;
  winner_path : option string;
}.

(** [job.stage = stage] *)
Definition with_stage (st : option string) (j : JobSummary) : JobSummary :=
  mkJob (job_id j) (prompt j) st (created_at j) (completed_at j)
        (image_count j) (winner j) (winner_path j).

(** The document served by [GET /api/jobs/{job_id}]; it is only stored and
    handed to the renderer, so it is kept as its text.  It is an object,
    hence truthy. *)
Inductive Detail := detail_json (body : string).

(** What comes back for a request.
    - [jobs_reply l] answers [GET /api/jobs]: a response, of any status,
      whose body is the JSON array [l] ([loadJobs] does not look at
      [res.ok]).
    - [job_reply d] answers [GET /api/jobs/{job_id}]: a response whose
      status is ok and whose body is the document [d].
    - [failed_reply] answers either: [fetch] rejects or the body is not
      JSON; for a detail request also a response whose status is not ok.
    [loadJobs] assigns any JSON body to [jobList]; [jobList] is typed as
    an array of summaries, so a body that is not one has no [Reply]. *)
Inductive Reply :=
  | jobs_reply (l : list JobSummary)
  | job_reply (d : Detail)
  | failed_reply.

Record Dom := mkDom {
  statusDot : string;
  statusText : string;
  pipelineCardShown : bool;
  stagesView : list StageView;
  agentLogView : list LogEntry;
  galleryCards : list string;
  searchInput : string;
  sortSelect : string;
}.

Record State := mkState {
  ws : Socket;
  currentJobId : option string;
  expandedJobId : option string;
  jobList : list JobSummary;
  jobDetailCache : gmap string Detail;
  agentLog : list LogEntry;
  searchDebounce : option nat;
  dom : Dom;
  host : Host;
}.

Definition set_ws v s :=
  mkState v (currentJobId s) (expandedJobId s) (jobList s)
    (jobDetailCache s) (agentLog s) (searchDebounce s) (dom s) (host s).
Definition set_currentJobId v s :=
  mkState (ws s) v (expandedJobId s) (jobList s) (jobDetailCache s)
    (agentLog s) (searchDebounce s) (dom s) (host s).
Definition set_expandedJobId v s :=
  mkState (ws s) (currentJobId s) v (jobList s) (jobDetailCache s)
    (agentLog s) (searchDebounce s) (dom s) (host s).
Definition set_jobList v s :=
  mkState (ws s) (currentJobId s) (expandedJobId s) v (jobDetailCache s)
    (agentLog s) (searchDebounce s) (dom s) (host s).
Definition set_jobDetailCache v s :=
  mkState (ws s) (currentJobId s) (expandedJobId s) (jobList s) v
    (agentLog s) (searchDebounce s) (dom s) (host s).
Definition set_agentLog v s :=
  mkState (ws s) (currentJobId s) (expandedJobId s) (jobList s)
    (jobDetailCache s) v (searchDebounce s) (dom s) (host s).
Definition set_searchDebounce v s :=
  mkState (ws s) (currentJobId s) (expandedJobId s) (jobList s)
    (jobDetailCache s) (agentLog s) v (dom s) (host s).
Definition set_dom v s :=
  mkState (ws s) (currentJobId s) (expandedJobId s) (jobList s)
    (jobDetailCache s) (agentLog s) (searchDebounce s) v (host s).
Definition set_state_host v s :=
  mkState (ws s) (currentJobId s) (expandedJobId s) (jobList s)
    (jobDetailCache s) (agentLog s) (searchDebounce s) (dom s) v.
Arguments set_ws v s /.
Arguments set_currentJobId v s /.
Arguments set_expandedJobId v s /.
Arguments set_jobList v s /.
Arguments set_jobDetailCache v s /.
Arguments set_agentLog v s /.
Arguments set_searchDebounce v s /.
Arguments set_dom v s /.
Arguments set_state_host v s /.

Definition set_status dot text d :=
  mkDom dot text (pipelineCardShown d) (stagesView d) (agentLogView d)
    (galleryCards d) (searchInput d) (sortSelect d).
Definition set_pipelineCardShown v d :=
  mkDom (statusDot d) (statusText d) v (stagesView d) (agentLogView d)
    (galleryCards d) (searchInput d) (sortSelect d).
Definition set_stagesView v d :=
  mkDom (statusDot d) (statusText d) (pipelineCardShown d) v
    (agentLogView d) (galleryCards d) (searchInput d) (sortSelect d).
Definition set_agentLogView v d :=
  mkDom (statusDot d) (statusText d) (pipelineCardShown d) (stagesView d) v
    (galleryCards d) (searchInput d) (sortSelect d).
Definition set_galleryCards v d :=
  mkDom (statusDot d) (statusText d) (pipelineCardShown d) (stagesView d)
    (agentLogView d) v (searchInput d) (sortSelect d).
Definition set_searchInput v d :=
  mkDom (statusDot d) (statusText d) (pipelineCardShown d) (stagesView d)
    (agentLogView d) (galleryCards d) v (sortSelect d).
Definition set_sortSelect v d :=
  mkDom (statusDot d) (statusText d) (pipelineCardShown d) (stagesView d)
    (agentLogView d) (galleryCards d) (searchInput d) v.
Arguments set_status dot text d /.
Arguments set_pipelineCardShown v d /.
Arguments set_stagesView v d /.
Arguments set_agentLogView v d /.
Arguments set_galleryCards v d /.
Arguments set_searchInput v d /.
Arguments set_sortSelect v d /.

#[export] Instance state_host : HasHost State :=
  {| get_host := host; set_host := set_state_host |}.

Definition on_dom (f : Dom -> Dom) : JS State unit :=
  modify (fun s => set_dom (f (dom s)) s).

Definition dom0 : Dom := mkDom "status-dot" "" false [] [] [] "" "".

(** The state when the script starts. *)
Definition initial : State :=
  mkState ws_null None None [] ∅ [] None dom0 host0.

(** *** Pipeline and log cards *)

Definition showPipelineCards : JS State unit :=
  on_dom (set_pipelineCardShown true).

Definition renderPipeline (currentStage : option string) : JS State unit :=
  on_dom (set_stagesView (pipelineHTML currentStage)).

Definition renderAgentLog : JS State unit :=
  log <- gets agentLog ;;
  on_dom (set_agentLogView (slice_last 30 log)).

(** [agentLog.push(entry)] *)
Definition agentLog_push (e : LogEntry) : JS State unit :=
  modify (fun s => set_agentLog (agentLog s ++ [e]) s).

(** *** Detail cache *)

(** [delete jobDetailCache[jobId]] *)
Definition delete_detail (jobId : string) : JS State unit :=
  modify (fun s => set_jobDetailCache (delete jobId (jobDetailCache s)) s).

(** [document.getElementById("detail-" + jobId)] finds the body of the
    card that the last [renderGallery] drew for [jobId], if any.  The
    gallery writes [id="detail-${j.job_id}"] without escaping: the ids of
    the elements are the ids of the jobs when these are [plain], which is
    what [galleryCards] records. *)
Definition hasContainer (jobId : string) (d : Dom) : bool :=
  existsb (String.eqb jobId) (galleryCards d).

(** [jobDetailCache[jobId]] as a condition: an own entry (a document,
    hence truthy), or a name inherited from [Object.prototype]. *)
Definition cached (jobId : string) (cache : gmap string Detail) : bool :=
  match cache !! jobId with
  | Some _ => true
  | None => inherited jobId
  end.

(** [fetchAndRenderDetail(jobId, forceRefresh)] up to its first [await].
    Filling the container is not modelled: the function either returns,
    serves the cached document, or sends [GET /api/jobs/jobId]. *)
Definition fetchAndRenderDetail (jobId : string) (forceRefresh : bool)
    : JS State unit :=
  async (
    present <- gets (fun s => hasContainer jobId (dom s)) ;;
    if negb present then ret tt
    else
      hit <- gets (fun s => cached jobId (jobDetailCache s)) ;;
      if negb forceRefresh && hit then ret tt
      else _ <- fetch (GET_job jobId) ;; ret tt).

(** The rest of [fetchAndRenderDetail], run when the reply arrives:
    [jobDetailCache[jobId] = detail] for the document of an ok response,
    an error text in the container otherwise ([None]: [fetch] rejects,
    the status is not ok, or the body is not JSON). *)
Definition fetchAndRenderDetail_resume (jobId : string) (r : option Detail)
    : JS State unit :=
  match r with
  | Some detail =>
      modify (fun s =>
        set_jobDetailCache (<[jobId := detail]> (jobDetailCache s)) s)
  | None => ret tt
  end.

(** *** Gallery *)

(** A job id is truthy unless it is the empty string. *)
Definition truthy (id : option string) : option string :=
  match id with
  | Some s => if s =? "" then None else Some s
  | None => None
  end.

Definition renderGallery : JS State unit :=
  jl <- gets jobList ;;
  match jl with
  | [] => on_dom (set_galleryCards [])
  | _ =>
      on_dom (set_galleryCards (map job_id jl)) ;;
      expanded <- gets expandedJobId ;;
      match truthy expanded with
      | Some id => fetchAndRenderDetail id false
      | None => ret tt
      end
  end.

Definition toggleJob (jobId : string) : JS State unit :=
  expanded <- gets expandedJobId ;;
  if bool_decide (expanded = Some jobId) then
    modify (set_expandedJobId None) ;; renderGallery
  else
    modify (set_expandedJobId (Some jobId)) ;; renderGallery.

(** *** Event handler *)

(** [jobList.find((j) => j.job_id === jobId)] *)
Definition findJob (jobId : string) (l : list JobSummary) : option JobSummary :=
  find (fun j => job_id j =? jobId) l.

(** Assigning to a property of the object that [find] returned changes
    that element of the array in place. *)
Fixpoint assign_first (p : JobSummary -> bool) (f : JobSummary -> JobSummary)
    (l : list JobSummary) : list JobSummary :=
  match l with
  | [] => []
  | j :: r => if p j then f j :: r else j :: assign_first p f r
  end.

Definition updateJobStage (jobId : string) (stage : option string)
    : JS State unit :=
  modify (fun s =>
    set_jobList
      (assign_first (fun j => job_id j =? jobId) (with_stage stage) (jobList s))
      s).

(** The summary that [job_started] puts in front of [jobList]. *)
Definition provisional (jobId : string) (p : option string)
    (timestamp : option string) : JobSummary :=
  mkJob jobId (or_else p "") (Some "research") timestamp None 0 None None.

Definition handleEvent (event : Event) : JS State unit :=
  let '(mkEvent type job_id data timestamp) := event in
  match eventType type with
  | job_started =>
      modify (set_currentJobId (Some job_id)) ;;
      modify (set_agentLog []) ;;
      showPipelineCards ;;
      renderPipeline (Some "research") ;;
      jl <- gets jobList ;;
      match findJob job_id jl with
      | Some _ => ret tt
      | None =>
          p <- prop data d_prompt ;;
          modify (fun s =>
            set_jobList (provisional job_id p timestamp :: jobList s) s)
      end ;;
      delete_detail job_id ;;
      renderGallery
  | stage_changed =>
      st <- prop data d_stage ;;
      renderPipeline st ;;
      updateJobStage job_id st
  | agent_message | progress =>
      a <- prop data d_agent ;;
      m <- prop data d_message ;;
      agentLog_push (mkLog a m timestamp) ;;
      renderAgentLog
  | image_generated =>
      delete_detail job_id
  | variant_scored =>
      delete_detail job_id
  | image_refined =>
      delete_detail job_id ;;
      expanded <- gets expandedJobId ;;
      when (bool_decide (expanded = Some job_id))
           (fetchAndRenderDetail job_id true) ;;
      v <- prop data d_variant ;;
      agentLog_push
        (mkLog (Some "generator") (Some ("Förfinad variant: " +:+ or_else v ""))
               timestamp) ;;
      renderAgentLog
  | job_completed =>
      updateJobStage job_id (Some "complete") ;;
      renderPipeline (Some "complete") ;;
      delete_detail job_id ;;
      renderGallery ;;
      expanded <- gets expandedJobId ;;
      when (bool_decide (expanded = Some job_id))
           (fetchAndRenderDetail job_id false)
  | job_failed =>
      updateJobStage job_id (Some "failed") ;;
      renderPipeline (Some "failed") ;;
      e <- prop data d_error ;;
      agentLog_push
        (mkLog (Some "system") (Some ("Fel: " +:+ or_else e "unknown"))
               timestamp) ;;
      renderAgentLog ;;
      renderGallery
  | unrecognised => ret tt
  end.

(** *** Search and sort *)

(** [params.set(name, value)] when [value] is not the empty string. *)
Definition param (name value : string) : list (string * string) :=
  if value =? "" then [] else [(name, value)].

(** [loadJobs()] up to its first [await]: the query is built from the
    current content of the search box and of the sort selector. *)
Definition loadJobs : JS State unit :=
  async (
    search <- gets (fun s => trim (searchInput (dom s))) ;;
    sort <- gets (fun s => sortSelect (dom s)) ;;
    _ <- fetch (GET_jobs (param "search" search ++ param "sort" sort)) ;;
    ret tt).

(** The rest of [loadJobs]: [jobList = await res.json(); renderGallery()]
    for the array [l] that the body parses to, whatever the status of the
    response; the [catch] branch ([None]) when [fetch] rejects or the
    body is not JSON. *)
Definition loadJobs_resume (body : option (list JobSummary)) : JS State unit :=
  match body with
  | Some l =>
      modify (set_jobList l) ;;
      renderGallery
  | None => console_error "Failed to load jobs:" rejected
  end.

(** The [input] listener of the search box; the host has stored the new
    content in [$searchInput.value] before it runs. *)
Definition onSearchInput (value : string) : JS State unit :=
  on_dom (set_searchInput value) ;;
  pending <- gets searchDebounce ;;
  clearTimeout pending ;;
  id <- setTimeout cb_loadJobs 350 ;;
  modify (set_searchDebounce (Some id)).

(** The [change] listener of the sort selector. *)
Definition onSortChange (value : string) : JS State unit :=
  on_dom (set_sortSelect value) ;;
  loadJobs.

(** *** WebSocket *)

Definition connect : JS State unit :=
  modify (set_ws CONNECTING).

Definition onopen : JS State unit :=
  on_dom (set_status "status-dot connected" "Ansluten").

Definition onclose : JS State unit :=
  on_dom (set_status "status-dot disconnected" "Frånkopplad") ;;
  _ <- setTimeout cb_connect 3000 ;;
  ret tt.

Definition onerror : JS State unit :=
  modify (fun s => set_ws (close (ws s)) s).

Definition onmessage (e_data : Payload) : JS State unit :=
  try_catch
    (v <- JSON_parse e_data ;;
     event <- destructure v ;;
     handleEvent event)
    (fun err => console_error "WS parse error:" (caught err)).

Definition init : JS State unit :=
  connect ;;
  loadJobs.

(** *** The event loop *)

Definition runCallback (cb : Callback) : JS State unit :=
  match cb with
  | cb_connect => connect
  | cb_loadJobs => loadJobs
  end.

Definition tick (t : nat) (h : Host) : Host :=
  mkHost (Nat.max (clock h) t) (timers h) (nextTimer h) (inflight h)
         (nextReq h) (sent h) (console h).

Definition drop_timer (id : nat) (h : Host) : Host :=
  mkHost (clock h) (List.filter (fun t => negb (t_id t =? id)%nat) (timers h))
         (nextTimer h) (inflight h) (nextReq h) (sent h) (console h).

Definition drop_inflight (n : nat) (h : Host) : Host :=
  mkHost (clock h) (timers h) (nextTimer h)
         (List.filter (fun p => negb (fst p =? n)%nat) (inflight h))
         (nextReq h) (sent h) (console h).

(** Runs, in firing order, the timers that are due at [t]; each callback
    sees the clock at its own due time.  No callback sets a timer, so one
    unit of fuel per pending timer is enough. *)
Fixpoint fireDue (fuel t : nat) (s : State) : State :=
  match fuel with
  | O => s
  | Datatypes.S fuel' =>
      match earliest t (timers (host s)) with
      | None => s
      | Some tm =>
          let s1 := set_state_host
                      (tick (t_due tm) (drop_timer (t_id tm) (host s))) s in
          fireDue fuel' t (exec (runCallback (t_cb tm)) s1)
      end
  end.

(** Time passes until [t]. *)
Definition advance (t : nat) (s : State) : State :=
  let s' := fireDue (length (timers (host s))) t s in
  set_state_host (tick t (host s')) s'.

(** The reply to request number [n] arrives.  A reply of the other
    kind is not one to this request: nothing is delivered. *)
Definition deliver (n : nat) (r : Reply) (s : State) : State :=
  match List.find (fun p => (fst p =? n)%nat) (inflight (host s)) with
  | None => s
  | Some (_, req) =>
      let s1 := set_state_host (drop_inflight n (host s)) s in
      match req, r with
      | GET_job jobId, job_reply d =>
          exec (fetchAndRenderDetail_resume jobId (Some d)) s1
      | GET_job jobId, failed_reply =>
          exec (fetchAndRenderDetail_resume jobId None) s1
      | GET_jobs _, jobs_reply l => exec (loadJobs_resume (Some l)) s1
      | GET_jobs _, failed_reply => exec (loadJobs_resume None) s1
      | GET_job _, jobs_reply _ | GET_jobs _, job_reply _ => s
      end
  end.

(** What the host can do to the page. *)
Inductive HostEvent :=
  | ws_open
  | ws_close
  | ws_error
  | ws_message (e_data : Payload)
  | search_input (value : string)
  | sort_change (value : string)
  | card_click (jobId : string)
  | reply (n : nat) (r : Reply)
  | elapse (t : nat).

Definition step (s : State) (e : HostEvent) : State :=
  match e with
  | ws_open => exec onopen (set_ws OPEN s)
  | ws_close => exec onclose (set_ws CLOSED s)
  | ws_error => exec onerror s
  | ws_message d => exec (onmessage d) s
  | search_input v => exec (onSearchInput v) s
  | sort_change v => exec (onSortChange v) s
  | card_click j => exec (toggleJob j) s
  | reply n r => deliver n r s
  | elapse t => advance t s
  end.

Definition run (s : State) (l : list HostEvent) : State := fold_left step l s.

(** *** Observations *)

Definition stageOf (jobId : string) (s : State) : option (option string) :=
  stage <$> findJob jobId (jobList s).

(** The push events [evs] handled one after the other. *)
Definition route (s : State) (evs : list Event) : State :=
  fold_left (fun s e => exec (handleEvent e) s) evs s.

(** What the connection manager owns. *)
Definition connection (s : State) :=
  (ws s, statusDot (dom s), statusText (dom s), timers (host s)).

(** [j'] is [j] up to its stage. *)
Definition same_but_stage (j j' : JobSummary) : Prop :=
  job_id j' = job_id j /\ prompt j' = prompt j /\
  created_at j' = created_at j /\ completed_at j' = completed_at j /\
  image_count j' = image_count j /\ winner j' = winner j /\
  winner_path j' = winner_path j.

(** The events that assign a stage other than [failed] to job [J]. *)
Definition restages (J : string) (e : Event) : bool :=
  (ev_job_id e =? J) &&
  match eventType (type e) with
  | stage_changed | job_completed => true
  | _ => false
  end.

(** The request in flight under sequence number [n]. *)
Definition pending (n : nat) (s : State) : option (nat * Request) :=
  List.find (fun p => (fst p =? n)%nat) (inflight (host s)).

(** The query that [loadJobs] sends in state [s]. *)
Definition query (s : State) : Request :=
  GET_jobs (param "search" (trim (searchInput (dom s))) ++
            param "sort" (sortSelect (dom s))).

(** What the search controller reads and writes, timers apart. *)
Definition searchView (s : State) :=
  (sent (host s), nextReq (host s), searchInput (dom s), sortSelect (dom s),
   searchDebounce s, nextTimer (host s)).

(** No search is waiting to fire: every pending timer is a reconnect. *)
Definition idle (s : State) : Prop :=
  forall tm, In tm (timers (host s)) ->
    t_cb tm = cb_connect /\ t_id tm < nextTimer (host s).

(** The debounce timer [id] is pending, due at [due], and is the only
    pending timer that is not a reconnect. *)
Definition armed (id due : nat) (s : State) : Prop :=
  searchDebounce s = Some id /\
  In (mkTimer id due cb_loadJobs) (timers (host s)) /\
  forall tm, In tm (timers (host s)) ->
    t_id tm < nextTimer (host s) /\
    (t_id tm = id -> tm = mkTimer id due cb_loadJobs) /\
    (t_id tm <> id -> t_cb tm = cb_connect).

(** What [idle] and [armed] share: timer ids are below [nextTimer], and
    a pending timer that is not a reconnect is the one that
    [searchDebounce] names. *)
Definition ready (s : State) : Prop :=
  forall tm, In tm (timers (host s)) ->
    t_id tm < nextTimer (host s) /\
    (t_cb tm = cb_connect \/ searchDebounce s = Some (t_id tm)).

(** The user types: at time [t] the search box changes to [v]. *)
Definition keystrokes (inputs : list (nat * string)) : list HostEvent :=
  flat_map (fun '(t, v) => [elapse t; search_input v]) inputs.

(** Each change comes less than 350ms after the one before. *)
Fixpoint spaced (prev : nat) (inputs : list (nat * string)) : Prop :=
  match inputs with
  | [] => True
  | (t, _) :: rest => prev <= t /\ t < prev + 350 /\ spaced t rest
  end.

(** The job ids of the catalog, in display order. *)
Definition catalogIds (s : State) : list string := map job_id (jobList s).

(** The gallery shows one card per catalog entry, in the same order. *)
Definition cards_in_sync (s : State) : Prop :=
  galleryCards (dom s) = catalogIds s.

(** Timer ids are distinct, and [ready] holds. *)
Definition timers_ok (s : State) : Prop :=
  NoDup (map t_id (timers (host s))) /\ ready s.

(** What the user controls in the gallery and the search bar. *)
Definition userView (s : State) :=
  (expandedJobId s, searchDebounce s, searchInput (dom s), sortSelect (dom s)).

(** A string made of white space only. *)
Fixpoint blank (v : string) : bool :=
  match v with
  | EmptyString => true
  | String c r => is_space c && blank r
  end.

(** What [cards_in_sync] depends on. *)
Definition cardsObs (s : State) := (galleryCards (dom s), jobList s).

(** What [timers_ok] depends on. *)
Definition timerObs (s : State) :=
  (timers (host s), nextTimer (host s), searchDebounce s).

(** The requests that a detail access sends. *)
Definition detailRequest (J : string) (forceRefresh : bool) (s : State)
    : list (nat * nat * Request) :=
  if hasContainer J (dom s) then
    if negb forceRefresh && cached J (jobDetailCache s) then []
    else [(clock (host s), nextReq (host s), GET_job J)]
  else [].

(** The requests that a redraw of the gallery sends. *)
Definition galleryRequest (s : State) : list (nat * nat * Request) :=
  match truthy (expandedJobId s) with
  | Some id =>
      if existsb (String.eqb id) (catalogIds s) then
        if cached id (jobDetailCache s) then []
        else [(clock (host s), nextReq (host s), GET_job id)]
      else []
  | None => []
  end.

(** The clock of the host. *)
Definition hostClock (s : State) := clock (host s).

(** Every job id of the catalog is [plain]: the gallery that
    [renderGallery] writes then holds one element [detail-J] per listed
    job [J], which [getElementById] finds. *)
Definition plainCatalog (s : State) : Prop :=
  Forall (fun id => plain id = true) (catalogIds s).

(** No document has been stored under the name [__proto__].  The
    assignment [jobDetailCache["__proto__"] = detail] adds no entry: it
    makes [detail] the prototype of the cache, which from then on
    inherits other names than [objectPrototypeNames]. *)
Definition cacheIntact (s : State) : Prop :=
  jobDetailCache s !! "__proto__" = None.

End Dashboard.

(** * The first dashboard (bot/web/static/app.js) *)

Module Legacy.

Record Image := mkImage {
  variant : option string;
  file_path : option string;
  index : option Z;
}.

Record Score := mkScore {
  s_variant : option string;
  scores : option ScoreCard;
  rank : option Z;
  review : option string;
}.

(** A value of the object [jobs]. *)
Record Job := mkJob {
  id : string;
  stage : option string;
  prompt : string;
  images : list Image;
  job_scores : list Score;
  job_agentLog : list LogEntry;
}.

Definition with_stage (v : option string) (j : Job) : Job :=
  mkJob (id j) v (prompt j) (images j) (job_scores j) (job_agentLog j).
Definition with_prompt (v : string) (j : Job) : Job :=
  mkJob (id j) (stage j) v (images j) (job_scores j) (job_agentLog j).
Definition push_image (i : Image) (j : Job) : Job :=
  mkJob (id j) (stage j) (prompt j) (images j ++ [i]) (job_scores j) (job_agentLog j).
Definition push_score (x : Score) (j : Job) : Job :=
  mkJob (id j) (stage j) (prompt j) (images j) (job_scores j ++ [x]) (job_agentLog j).
Definition push_log (e : LogEntry) (j : Job) : Job :=
  mkJob (id j) (stage j) (prompt j) (images j) (job_scores j) (job_agentLog j ++ [e]).

(** One [<div class="image-card">]: the image with the scores found for
    its variant. *)
Record ImageCard := mkCard {
  card_variant : option string;
  card_file : string;
  card_scores : option (ScoreCard * option Z);
}.

Record Dom := mkDom {
  statusDot : string;
  statusText : string;
  stagesView : list StageView;
  agentLogView : list LogEntry;
  imageGrid : list ImageCard;
  jobTitle : string;
}.

Record State := mkState {
  ws : Socket;
  currentJobId : option string;
  jobs : gmap string Job;
  agentLog : list LogEntry;
  dom : Dom;
  host : Host;
}.

Definition set_ws v s :=
  mkState v (currentJobId s) (jobs s) (agentLog s) (dom s) (host s).
Definition set_currentJobId v s :=
  mkState (ws s) v (jobs s) (agentLog s) (dom s) (host s).
Definition set_jobs v s :=
  mkState (ws s) (currentJobId s) v (agentLog s) (dom s) (host s).
Definition set_agentLog v s :=
  mkState (ws s) (currentJobId s) (jobs s) v (dom s) (host s).
Definition set_dom v s :=
  mkState (ws s) (currentJobId s) (jobs s) (agentLog s) v (host s).
Definition set_state_host v s :=
  mkState (ws s) (currentJobId s) (jobs s) (agentLog s) (dom s) v.
Arguments set_ws v s /.
Arguments set_currentJobId v s /.
Arguments set_jobs v s /.
Arguments set_agentLog v s /.
Arguments set_dom v s /.
Arguments set_state_host v s /.

Definition set_status dot text d :=
  mkDom dot text (stagesView d) (agentLogView d) (imageGrid d) (jobTitle d).
Definition set_stagesView v d :=
  mkDom (statusDot d) (statusText d) v (agentLogView d) (imageGrid d)
    (jobTitle d).
Definition set_agentLogView v d :=
  mkDom (statusDot d) (statusText d) (stagesView d) v (imageGrid d)
    (jobTitle d).
Definition set_imageGrid v d :=
  mkDom (statusDot d) (statusText d) (stagesView d) (agentLogView d) v
    (jobTitle d).
Definition set_jobTitle v d :=
  mkDom (statusDot d) (statusText d) (stagesView d) (agentLogView d)
    (imageGrid d) v.
Arguments set_status dot text d /.
Arguments set_stagesView v d /.
Arguments set_agentLogView v d /.
Arguments set_imageGrid v d /.
Arguments set_jobTitle v d /.

#[export] Instance state_host : HasHost State :=
  {| get_host := host; set_host := set_state_host |}.

Definition on_dom (f : Dom -> Dom) : JS State unit :=
  modify (fun s => set_dom (f (dom s)) s).

Definition initial : State :=
  mkState ws_null None ∅ [] (mkDom "status-dot" "" [] [] [] "") host0.

(** [const job = jobs[job_id]] names the stored object itself: a write to
    a property of [job] is a write into [jobs]. *)
Definition on_job (job_id : string) (f : Job -> Job) : JS State unit :=
  modify (fun s => set_jobs (alter f job_id (jobs s)) s).

Definition the_job (job_id : string) : JS State Job :=
  j <- gets (fun s => jobs s !! job_id) ;;
  match j with
  | Some job => ret job
  | None => throw (TypeError "job is undefined")
  end.

(** *** Renderers *)

Definition renderPipeline (job : Job) : JS State unit :=
  on_dom (set_stagesView (pipelineHTML (stage job))).

Definition renderAgentLog : JS State unit :=
  log <- gets agentLog ;;
  on_dom (set_agentLogView (slice_last 30 log)).

Definition addAgentLogEntry (entry : LogEntry) : JS State unit :=
  modify (fun s => set_agentLog (agentLog s ++ [entry]) s) ;;
  renderAgentLog.

(** The body of the [map] in [renderImages]: [img.file_path.includes]
    throws on a missing path, [scoreData.scores[d].toFixed] on missing
    scores. *)
Definition renderImageCard (job : Job) (img : Image) : JS State ImageCard :=
  let scoreData :=
    find (fun s => bool_decide (s_variant s = variant img)) (job_scores job) in
  filePath <-
    match file_path img with
    | Some p => ret p
    | None => throw (TypeError "img.file_path is undefined")
    end ;;
  scoreHtml <-
    match scoreData with
    | None => ret None
    | Some sd =>
        match scores sd with
        | Some c => ret (Some (c, rank sd))
        | None => throw (TypeError "scoreData.scores is undefined")
        end
    end ;;
  ret (mkCard (variant img) filePath scoreHtml).

Fixpoint mapM {A B} (f : A -> JS State B) (l : list A) : JS State (list B) :=
  match l with
  | [] => ret []
  | x :: r => y <- f x ;; ys <- mapM f r ;; ret (y :: ys)
  end.

Definition renderImages (job : Job) : JS State unit :=
  match images job with
  | [] => on_dom (set_imageGrid [])
  | imgs =>
      cards <- mapM (renderImageCard job) imgs ;;
      on_dom (set_imageGrid cards)
  end.

Definition clearImages : JS State unit :=
  modify (set_agentLog []) ;;
  on_dom (set_agentLogView []) ;;
  on_dom (set_imageGrid []).

(** The job list is drawn from [jobs] alone and is not read back. *)
Definition renderJobList : JS State unit := ret tt.

(** *** Event handler *)

(** The summary created for a job id that [jobs] does not hold yet. *)
Definition newJob (job_id : string) (p : option string) : Job :=
  mkJob job_id (Some "queued") (or_else p "") [] [] [].

(** [if (!jobs[job_id]) jobs[job_id] = { ... }], for a [job_id] that is
    not a name that [jobs] inherits from [Object.prototype].  For such a
    name the test finds the inherited value, no summary is stored, and
    [job] is that value; this is not modelled, and what is proved of
    summaries that this test creates is proved under [inherited job_id =
    false]. *)
Definition trackJob (job_id : string) (data : option EventData)
    : JS State unit :=
  known <- gets (fun s => jobs s !! job_id) ;;
  match known with
  | Some _ => ret tt
  | None =>
      p <- prop data d_prompt ;;
      modify (fun s => set_jobs (<[job_id := newJob job_id p]> (jobs s)) s)
  end.

(** The [switch (type)] of [handleEvent]. *)
Definition dispatch (event : Event) : JS State unit :=
  let '(mkEvent type job_id data timestamp) := event in
  match eventType type with
  | job_started =>
      p <- prop data d_prompt ;;
      on_job job_id (fun j => with_prompt (or_else p (prompt j)) j) ;;
      on_job job_id (with_stage (Some "research")) ;;
      modify (set_currentJobId (Some job_id)) ;;
      renderJobList ;;
      job <- the_job job_id ;;
      renderPipeline job ;;
      clearImages ;;
      on_dom (set_jobTitle (or_else (Some (prompt job)) "Nytt jobb"))
  | stage_changed =>
      st <- prop data d_stage ;;
      on_job job_id (with_stage st) ;;
      job <- the_job job_id ;;
      renderPipeline job
  | agent_message =>
      a <- prop data d_agent ;;
      m <- prop data d_message ;;
      let logEntry := mkLog a m timestamp in
      modify (fun s => set_agentLog (agentLog s ++ [logEntry]) s) ;;
      on_job job_id (push_log logEntry) ;;
      renderAgentLog
  | progress =>
      a <- prop data d_agent ;;
      m <- prop data d_message ;;
      addAgentLogEntry (mkLog a m timestamp)
  | image_generated =>
      v <- prop data d_variant ;;
      f <- prop data d_file_path ;;
      i <- prop data d_index ;;
      on_job job_id (push_image (mkImage v f i)) ;;
      job <- the_job job_id ;;
      renderImages job
  | variant_scored =>
      v <- prop data d_variant ;;
      sc <- prop data d_scores ;;
      rk <- prop data d_rank ;;
      rv <- prop data d_review ;;
      on_job job_id (push_score (mkScore v sc rk rv)) ;;
      job <- the_job job_id ;;
      renderImages job
  | job_completed =>
      on_job job_id (with_stage (Some "complete")) ;;
      job <- the_job job_id ;;
      renderPipeline job ;;
      renderJobList
  | job_failed =>
      on_job job_id (with_stage (Some "failed")) ;;
      job <- the_job job_id ;;
      renderPipeline job ;;
      renderJobList ;;
      e <- prop data d_error ;;
      addAgentLogEntry
        (mkLog (Some "system")
               (Some ("Fel: " +:+ match e with Some x => x | None => "undefined" end))
               timestamp)
  | image_refined | unrecognised => ret tt
  end.

Definition handleEvent (event : Event) : JS State unit :=
  trackJob (ev_job_id event) (data event) ;;
  dispatch event.

(** *** WebSocket *)

Definition connect : JS State unit :=
  modify (set_ws CONNECTING).

Definition onopen : JS State unit :=
  on_dom (set_status "status-dot connected" "Ansluten").

Definition onclose : JS State unit :=
  on_dom (set_status "status-dot disconnected" "Frånkopplad") ;;
  _ <- setTimeout cb_connect 3000 ;;
  ret tt.

Definition onerror : JS State unit :=
  modify (fun s => set_ws (close (ws s)) s).

Definition onmessage (e_data : Payload) : JS State unit :=
  try_catch
    (v <- JSON_parse e_data ;;
     event <- destructure v ;;
     handleEvent event)
    (fun err => console_error "WS parse error:" (caught err)).

Definition stageOf (job_id : string) (s : State) : option (option string) :=
  stage <$> jobs s !! job_id.

Definition connection (s : State) :=
  (ws s, statusDot (dom s), statusText (dom s), timers (host s)).

(** *** Public API and start-up *)

Definition selectJob (jobId : string) : JS State unit :=
  modify (set_currentJobId (Some jobId)) ;;
  found <- gets (fun s => jobs s !! jobId) ;;
  match found with
  | None => ret tt
  | Some job =>
      modify (set_agentLog (job_agentLog job)) ;;
      on_dom (set_jobTitle (or_else (Some (prompt job)) jobId)) ;;
      renderPipeline job ;;
      renderAgentLog ;;
      renderImages job ;;
      renderJobList
  end.

(** An element of the array served by [GET /api/jobs], through the three
    properties that [init] reads. *)
Record Listed := mkListed {
  l_job_id : string;
  l_stage : option string;
  l_prompt : string;
}.

Inductive Reply :=
  | jobs_reply (l : list Listed)
  | failed_reply.

(** The object that [init] stores for a listed job. *)
Definition listedJob (j : Listed) : Job :=
  mkJob (l_job_id j) (l_stage j) (l_prompt j) [] [] [].

(** [for (const j of data) jobs[j.job_id] = { ... }] *)
Definition storeListed (l : list Listed) (m : gmap string Job) : gmap string Job :=
  fold_left (fun m j => <[l_job_id j := listedJob j]> m) l m.

(** The pipeline as [init] resets it: every stage pending, no label
    active. *)
Definition pendingPipeline : list StageView :=
  map (fun s => mkStageView (icon s) "pending" (label s) "") STAGES.

(** [init()] up to its first [await]. *)
Definition init : JS State unit :=
  connect ;;
  async (_ <- fetch (GET_jobs []) ;; ret tt).

(** The rest of [init], run when the reply to [GET /api/jobs] arrives. *)
Definition init_resume (r : Reply) : JS State unit :=
  match r with
  | jobs_reply data =>
      modify (fun s => set_jobs (storeListed data (jobs s)) s) ;;
      renderJobList
  | failed_reply => console_error "Failed to load jobs:" rejected
  end ;;
  on_dom (set_stagesView pendingPipeline).

(** The push events [evs] handled one after the other. *)
Definition route (s : State) (evs : list Event) : State :=
  fold_left (fun s e => exec (handleEvent e) s) evs s.

(** Whether the card of [img] can be drawn: the image has its file path,
    and the scores found for its variant, if any, have their numbers. *)
Definition drawableImage (job : Job) (img : Image) : Prop :=
  is_Some (file_path img) /\
  forall sd,
    find (fun s => bool_decide (s_variant s = variant img)) (job_scores job)
      = Some sd ->
    is_Some (scores sd).

(** Whether the image grid can be drawn for [job]. *)
Definition drawable (job : Job) : Prop :=
  Forall (drawableImage job) (images job).

(** No job has been tracked or listed under the name [__proto__].  A
    write to [jobs["__proto__"]], or to a property of that value, changes
    what [jobs] and every other object inherit, which from then on is
    more than [objectPrototypeNames]. *)
Definition storeIntact (s : State) : Prop :=
  jobs s !! "__proto__" = None.

(** The log that [jobs] holds for job [J]. *)
Definition ownLog (J : string) (s : State) : list LogEntry :=
  from_option job_agentLog [] (jobs s !! J).

End Legacy.

(** * The generate form of the v2 dashboard *)

Module Form.
Import Dashboard.

(** A [File], through the two properties that the page reads. *)
Record File := mkFile { f_name : string; f_type : string }.

Inductive Part :=
  | text_part (value : string)
  | file_part (f : File).

(** The reply to [POST /api/generate]: a success carrying [job_id], a
    failure status carrying [detail] and [error], or a request or body
    that fails with an exception message. *)
Inductive GenerateReply :=
  | generated (job_id : option string)
  | refused (detail error : option string)
  | broken (message : string).

(** The form controls, the staged files, the bodies posted so far and the
    [alert]s shown so far. *)
Record Controls := mkControls {
  promptInput : string;
  aspectSelect : string;
  resolutionSelect : string;
  uploadedFiles : list File;
  filePreviews : list string;
  submitDisabled : bool;
  submitText : string;
  posted : list (list (string * Part));
  alerts : list string;
}.

Record Page := mkPage { app : State; controls : Controls }.

Definition set_promptInput v c :=
  mkControls v (aspectSelect c) (resolutionSelect c) (uploadedFiles c)
    (filePreviews c) (submitDisabled c) (submitText c) (posted c) (alerts c).
Definition set_uploadedFiles v c :=
  mkControls (promptInput c) (aspectSelect c) (resolutionSelect c) v
    (filePreviews c) (submitDisabled c) (submitText c) (posted c) (alerts c).
Definition set_filePreviews v c :=
  mkControls (promptInput c) (aspectSelect c) (resolutionSelect c)
    (uploadedFiles c) v (submitDisabled c) (submitText c) (posted c) (alerts c).
Definition set_submitBtn disabled text c :=
  mkControls (promptInput c) (aspectSelect c) (resolutionSelect c)
    (uploadedFiles c) (filePreviews c) disabled text (posted c) (alerts c).
Definition set_posted v c :=
  mkControls (promptInput c) (aspectSelect c) (resolutionSelect c)
    (uploadedFiles c) (filePreviews c) (submitDisabled c) (submitText c) v
    (alerts c).
Definition set_alerts v c :=
  mkControls (promptInput c) (aspectSelect c) (resolutionSelect c)
    (uploadedFiles c) (filePreviews c) (submitDisabled c) (submitText c)
    (posted c) v.
Arguments set_promptInput v c /.
Arguments set_uploadedFiles v c /.
Arguments set_filePreviews v c /.
Arguments set_submitBtn disabled text c /.
Arguments set_posted v c /.
Arguments set_alerts v c /.

Definition on_controls (f : Controls -> Controls) : JS Page unit :=
  modify (fun p => mkPage (app p) (f (controls p))).

(** A handler of the dashboard proper, run on the page. *)
Definition on_app {A} (c : JS State A) : JS Page A :=
  fun p =>
    match c (app p) with
    | (o, s') => (o, mkPage s' (controls p))
    end.
Arguments on_app {A} c p /.

(** [alert(text)] *)
Definition alert (text : string) : JS Page unit :=
  on_controls (fun c => set_alerts (alerts c ++ [text]) c).

(** *** File upload *)

Definition renderFilePreviews : JS Page unit :=
  on_controls (fun c => set_filePreviews (map f_name (uploadedFiles c)) c).

(** [f.type.startsWith("image/")] *)
Definition isImage (f : File) : bool := String.prefix "image/" (f_type f).

Definition addFiles (fileList : list File) : JS Page unit :=
  on_controls (fun c =>
    set_uploadedFiles (uploadedFiles c ++ List.filter isImage fileList) c) ;;
  renderFilePreviews.

(** [arr.splice(index, 1)]: a negative index counts from the end, and an
    index past the end removes nothing. *)
Definition splice1 {A} (index : Z) (l : list A) : list A :=
  let len := Z.of_nat (length l) in
  let start :=
    if (index <? 0)%Z then Z.max (len + index) 0 else Z.min index len in
  let n := Z.to_nat start in
  (firstn n l ++ skipn (Datatypes.S n) l)%list.

Definition removeFile (index : Z) : JS Page unit :=
  on_controls (fun c => set_uploadedFiles (splice1 index (uploadedFiles c)) c) ;;
  renderFilePreviews.

(** *** Submit *)

(** The [FormData] built by the submit listener. *)
Definition formData (prompt : string) (c : Controls) : list (string * Part) :=
  ([("prompt", text_part prompt);
    ("aspect_ratio", text_part (aspectSelect c));
    ("resolution", text_part (resolutionSelect c))] ++
   map (fun f => ("files", file_part f)) (uploadedFiles c))%list.

(** The [submit] listener of the form up to its first [await]. *)
Definition onSubmit : JS Page unit :=
  async (
    prompt <- gets (fun p => trim (promptInput (controls p))) ;;
    if prompt =? "" then ret tt
    else
      on_controls (set_submitBtn true "Skickar...") ;;
      on_controls (fun c => set_posted (posted c ++ [formData prompt c]) c)).

(** The rest of the listener, run when the reply arrives; the last line is
    its [finally] block. *)
Definition onSubmit_resume (r : GenerateReply) : JS Page unit :=
  match r with
  | refused detail error =>
      alert ("Fel: " +:+ or_else detail (or_else error "Okänt fel"))
  | generated job_id =>
      on_app (modify (set_currentJobId job_id)) ;;
      on_controls (set_promptInput "") ;;
      on_controls (set_uploadedFiles []) ;;
      renderFilePreviews ;;
      on_app (modify (set_agentLog [])) ;;
      on_app showPipelineCards ;;
      on_app (renderPipeline (Some "queued")) ;;
      on_app renderAgentLog
  | broken message =>
      alert ("Nätverksfel: " +:+ message)
  end ;;
  on_controls (set_submitBtn false "Generera 6 varianter").

Definition controls0 : Controls :=
  mkControls "" "1:1" "2K" [] [] false "Generera 6 varianter" [] [].

Definition page0 : Page := mkPage initial controls0.

(** Every staged file has an image content type. *)
Definition staged_images (p : Page) : Prop :=
  Forall (fun f => isImage f = true) (uploadedFiles (controls p)).

(** The previews show the staged files, in order. *)
Definition previews_in_sync (p : Page) : Prop :=
  filePreviews (controls p) = map f_name (uploadedFiles (controls p)).

(** What the user and the server do to the form. *)
Inductive FormAction :=
  | add_files (fileList : list File)
  | remove_file (index : Z)
  | submit
  | submit_reply (r : GenerateReply).

Definition act (p : Page) (a : FormAction) : Page :=
  match a with
  | add_files l => exec (addFiles l) p
  | remove_file i => exec (removeFile i) p
  | submit => exec onSubmit p
  | submit_reply r => exec (onSubmit_resume r) p
  end.

Definition perform (p : Page) (l : list FormAction) : Page := fold_left act l p.

(** The [alert] text for a reply that is not a success. *)
Definition failureText (r : GenerateReply) : string :=
  match r with
  | refused detail error => "Fel: " +:+ or_else detail (or_else error "Okänt fel")
  | broken message => "Nätverksfel: " +:+ message
  | generated _ => ""
  end.

End Form.

(** * Scenarios *)

Module Scenario.
Import Dashboard.

Definition now : option string := Some "2026-03-01T10:00:00Z".

Definition with_prompt (p : string) : EventData :=
  mkData (Some p) None None None None None None None None None None.
Definition with_stage (st : string) : EventData :=
  mkData None (Some st) None None None None None None None None None.
Definition with_variant (v : string) : EventData :=
  mkData None None None None (Some v) None None None None None None.
Definition with_error (e : string) : EventData :=
  mkData None None None None None (Some e) None None None None None.

Definition started : Event :=
  mkEvent "job_started" "abc123" (Some (with_prompt "a red bicycle")) now.
Definition staged (st : string) : Event :=
  mkEvent "stage_changed" "abc123" (Some (with_stage st)) now.
Definition refined : Event :=
  mkEvent "image_refined" "abc123" (Some (with_variant "v2")) now.
Definition failed : Event :=
  mkEvent "job_failed" "abc123" (Some (with_error "quota exceeded")) now.
(** A [job_failed] envelope that lacks its [data] object. *)
Definition failed_bare : Event :=
  mkEvent "job_failed" "abc123" None now.

Definition summary (id : string) (st : string) : JobSummary :=
  mkJob id "a red bicycle" (Some st) now None 0 None None.

(** The page once the catalog [l] has been loaded. *)
Definition loaded (l : list JobSummary) : State :=
  run initial [sort_change "newest"; reply 0 (jobs_reply l)].

(** The same with the card of [abc123] expanded and its detail cached. *)
Definition expanded (l : list JobSummary) (d : Detail) : State :=
  run (loaded l) [card_click "abc123"; reply 1 (job_reply d)].

Definition old_doc : Detail := detail_json "{ stage: generating }".
Definition new_doc : Detail := detail_json "{ stage: complete }".

(** Further events and inputs. *)
Definition with_message (a m : string) : EventData :=
  mkData None None (Some a) (Some m) None None None None None None None.
Definition said : Event :=
  mkEvent "agent_message" "abc123" (Some (with_message "critic" "scoring")) now.
Definition progressed : Event :=
  mkEvent "progress" "abc123" (Some (with_message "generator" "3 of 6")) now.
Definition scored : Event :=
  mkEvent "variant_scored" "abc123" (Some (with_variant "v2")) now.
Definition completed : Event :=
  mkEvent "job_completed" "abc123" (Some noData) now.
Definition pinged : Event :=
  mkEvent "heartbeat" "abc123" (Some noData) now.
(** An [image_generated] envelope whose data lacks its file path. *)
Definition pictured : Event :=
  mkEvent "image_generated" "abc123" (Some (with_variant "v1")) now.

Definition photo : Form.File := Form.mkFile "cat.png" "image/png".
Definition notes : Form.File := Form.mkFile "notes.txt" "text/plain".
Definition sketch : Form.File := Form.mkFile "sketch.jpg" "image/jpeg".

End Scenario.

(** * Properties *)

(** ** Reasoning about handlers *)

Section Frame.
Context {S X : Type} (obs : S -> X).

Lemma preserves_ret {A} (a : A) : preserves obs (ret a).
Proof. intro s. reflexivity. Qed.

Lemma preserves_throw {A} e : preserves obs (@throw S A e).
Proof. intro s. reflexivity. Qed.

Lemma preserves_gets {A} (f : S -> A) : preserves obs (gets f).
Proof. intro s. reflexivity. Qed.

Lemma preserves_modify (f : S -> S) :
  (forall s, obs (f s) = obs s) -> preserves obs (modify f).
Proof. intros Hf s. apply Hf. Qed.

Lemma preserves_bind {A B} (c : JS S A) (k : A -> JS S B) :
  preserves obs c -> (forall a, preserves obs (k a)) ->
  preserves obs (bind c k).
Proof.
  intros Hc Hk s. specialize (Hc s). unfold exec in *. simpl.
  destruct (c s) as [[a|e] s1]; simpl in *.
  - rewrite <- Hc. apply Hk.
  - exact Hc.
Qed.

Lemma preserves_try_catch {A} (c : JS S A) (h : JsError -> JS S A) :
  preserves obs c -> (forall e, preserves obs (h e)) ->
  preserves obs (try_catch c h).
Proof.
  intros Hc Hh s. specialize (Hc s). unfold exec in *. simpl.
  destruct (c s) as [[a|e] s1]; simpl in *.
  - exact Hc.
  - rewrite <- Hc. apply Hh.
Qed.

Lemma preserves_async (c : JS S unit) :
  preserves obs c -> preserves obs (async c).
Proof. intros Hc s. apply Hc. Qed.

Lemma preserves_when b (c : JS S unit) :
  preserves obs c -> preserves obs (when b c).
Proof. intros Hc. destruct b; [ exact Hc | apply preserves_ret ]. Qed.

Lemma preserves_prop {A} d (p : EventData -> A) : preserves obs (prop d p).
Proof. destruct d; intro s; reflexivity. Qed.

Lemma preserves_exec {A} (c : JS S A) s :
  preserves obs c -> obs (exec c s) = obs s.
Proof. intros Hc. apply Hc. Qed.
End Frame.

(** Walks through a handler and closes the goal when no assignment in it
    touches the observation. *)
Ltac frame_step :=
  lazymatch goal with
  | |- preserves _ (bind _ _) => apply preserves_bind; [ | intros ? ]
  | |- preserves _ (try_catch _ _) => apply preserves_try_catch; [ | intros ? ]
  | |- preserves _ (async _) => apply preserves_async
  | |- preserves _ (when _ _) => apply preserves_when
  | |- preserves _ (modify _) => apply preserves_modify; intros ?; reflexivity
  | |- preserves _ (ret _) => apply preserves_ret
  | |- preserves _ (throw _) => apply preserves_throw
  | |- preserves _ (gets _) => apply preserves_gets
  | |- preserves _ (prop _ _) => apply preserves_prop
  | |- preserves _ (match ?x with _ => _ end) => destruct x
  end.

Ltac frame := repeat frame_step.

Section NeverThrows.
Context {S : Type}.

Lemma never_throws_ret {A} (a : A) : never_throws (@ret S A a).
Proof. intro s. eexists. reflexivity. Qed.

Lemma never_throws_gets {A} (f : S -> A) : never_throws (gets f).
Proof. intro s. eexists. reflexivity. Qed.

Lemma never_throws_modify (f : S -> S) : never_throws (modify f).
Proof. intro s. eexists. reflexivity. Qed.

Lemma never_throws_async (c : JS S unit) : never_throws (async c).
Proof. intro s. eexists. reflexivity. Qed.

Lemma never_throws_bind {A B} (c : JS S A) (k : A -> JS S B) :
  never_throws c -> (forall a, never_throws (k a)) -> never_throws (bind c k).
Proof.
  intros Hc Hk s. destruct (Hc s) as [a Ha]. simpl.
  destruct (c s) as [o s1]. simpl in Ha. subst o. apply Hk.
Qed.

Lemma never_throws_when b (c : JS S unit) :
  never_throws c -> never_throws (when b c).
Proof. intros Hc. destruct b; [ exact Hc | apply never_throws_ret ]. Qed.

Lemma never_throws_try_catch {A} (c : JS S A) h :
  (forall e, never_throws (h e)) -> never_throws (try_catch c h).
Proof.
  intros Hh s. simpl. destruct (c s) as [[a|e] s1].
  - eexists. reflexivity.
  - apply Hh.
Qed.

Lemma never_throws_prop {A} d (p : EventData -> A) :
  never_throws (@prop S A (Some d) p).
Proof. intro s. eexists. reflexivity. Qed.

Lemma never_throws_done (c : JS S unit) s :
  never_throws c -> fst (c s) = Done tt.
Proof. intros Hc. destruct (Hc s) as [[] Ha]. exact Ha. Qed.
End NeverThrows.

Ltac total_step :=
  lazymatch goal with
  | |- never_throws (bind _ _) => apply never_throws_bind; [ | intros ? ]
  | |- never_throws (try_catch _ _) => apply never_throws_try_catch; intros ?
  | |- never_throws (async _) => apply never_throws_async
  | |- never_throws (when _ _) => apply never_throws_when
  | |- never_throws (modify _) => apply never_throws_modify
  | |- never_throws (ret _) => apply never_throws_ret
  | |- never_throws (gets _) => apply never_throws_gets
  | |- never_throws (prop (Some _) _) => apply never_throws_prop
  | |- never_throws (match ?x with _ => _ end) => destruct x
  end.

Ltac total := repeat total_step.

Lemma exec_modify {S A} (f : S -> S) (k : JS S A) s :
  exec (modify f ;; k) s = exec k (f s).
Proof. reflexivity. Qed.

Lemma is_str_true v lit : is_str v lit = true -> v = Some lit.
Proof.
  destruct v as [s|]; simpl; [ | discriminate ].
  intros H. apply String.eqb_eq in H. now subst.
Qed.

(** ** The pipeline view *)

Lemma pipeline_complete_all_done :
  iconClasses (pipelineHTML (Some "complete")) = ["done"; "done"; "done"; "done"].
Proof. reflexivity. Qed.

(** At the [k]-th stage of [STAGES] the earlier stages are done, the
    [k]-th is active and the later ones are pending. *)
Lemma pipeline_known_stage (k : nat) (sd : StageDef) :
  STAGES !! k = Some sd ->
  iconClasses (pipelineHTML (Some (key sd))) =
    (replicate k "done" ++ ["active"] ++ replicate (3 - k) "pending")%list.
Proof.
  intros Hk.
  do 4 (destruct k as [|k]; [ inversion Hk; subst; reflexivity | ]).
  discriminate Hk.
Qed.

Lemma renderStage_not_failed idx c i s :
  iconClass (renderStage idx false c i s) <> "failed".
Proof.
  unfold renderStage. simpl.
  destruct (c || _); [ discriminate | ].
  destruct (_ =? _)%Z; discriminate.
Qed.

Lemma pipeline_never_failed (currentStage : option string) :
  Forall (fun c => c <> "failed") (iconClasses (pipelineHTML currentStage)).
Proof.
  destruct (is_str currentStage "failed") eqn:Hf.
  - apply is_str_true in Hf. subst currentStage. vm_compute.
    repeat (constructor; [ discriminate | ]). constructor.
  - unfold pipelineHTML, iconClasses. rewrite Hf.
    generalize (findIndex (fun s => is_str currentStage (key s)) STAGES) as idx.
    generalize (is_str currentStage "complete") as c. intros c idx.
    unfold STAGES. cbn [imap map compose].
    repeat (constructor; [ apply renderStage_not_failed | ]).
    constructor.
Qed.

(** C5.  The claim asks that, once the job has failed, the stage at the
    last known index renders "failed".  [renderPipeline] looks the stage
    name "failed" up in [STAGES], finds no index, and so its test
    [isFailed && i === stageIndex] never holds: whatever the current
    stage, no stage is rendered "failed", and a job that fails while
    generating shows four pending stages in both clients. *)
Theorem failed_stage_never_rendered :
  (forall currentStage,
     Forall (fun c => c <> "failed") (iconClasses (pipelineHTML currentStage))) /\
  iconClasses (pipelineHTML (Some "failed")) =
    ["pending"; "pending"; "pending"; "pending"] /\
  iconClasses (Dashboard.stagesView (Dashboard.dom
      (Dashboard.route Dashboard.initial
         [Scenario.started; Scenario.staged "generating"; Scenario.failed]))) =
    ["pending"; "pending"; "pending"; "pending"] /\
  iconClasses (Legacy.stagesView (Legacy.dom
      (fold_left (fun s e => exec (Legacy.handleEvent e) s)
         [Scenario.started; Scenario.staged "generating"; Scenario.failed]
         Legacy.initial))) =
    ["pending"; "pending"; "pending"; "pending"].
Proof.
  split; [ exact pipeline_never_failed | ].
  repeat split; vm_compute; reflexivity.
Qed.

(** ** The v2 dashboard: catalog and detail cache *)

Section DashboardFacts.
Import Dashboard.

Ltac unfold_handlers :=
  unfold renderGallery, fetchAndRenderDetail, renderPipeline, renderAgentLog,
    showPipelineCards, agentLog_push, delete_detail, updateJobStage,
    loadJobs, fetch, setTimeout, clearTimeout, console_error, on_host, on_dom.

Lemma findJob_assign_first J K f l :
  (forall j, job_id (f j) = job_id j) ->
  findJob J (assign_first (fun j => job_id j =? K) f l) =
  if J =? K then f <$> findJob J l else findJob J l.
Proof.
  intros Hf. unfold findJob.
  induction l as [|j l IH]; simpl.
  - destruct (J =? K); reflexivity.
  - destruct (job_id j =? K) eqn:HK; simpl.
    + rewrite Hf. apply String.eqb_eq in HK. rewrite HK.
      rewrite (String.eqb_sym K J).
      destruct (J =? K); reflexivity.
    + destruct (job_id j =? J) eqn:HJ.
      * apply String.eqb_eq in HJ. subst J. rewrite HK. reflexivity.
      * exact IH.
Qed.

Lemma assign_first_absent J f l :
  findJob J l = None -> assign_first (fun j => job_id j =? J) f l = l.
Proof.
  unfold findJob. induction l as [|j l IH]; simpl; [ reflexivity | ].
  destruct (job_id j =? J); [ discriminate | ].
  intros H. now rewrite IH.
Qed.

Lemma Forall2_same_refl J (l : list JobSummary) :
  Forall2 (fun j j' => same_but_stage j j' /\ (job_id j <> J -> j' = j)) l l.
Proof.
  induction l; constructor; [ | assumption ].
  split; [ repeat split | reflexivity ].
Qed.

Lemma assign_first_frame J st l :
  Forall2 (fun j j' => same_but_stage j j' /\ (job_id j <> J -> j' = j))
          l (assign_first (fun j => job_id j =? J) (with_stage st) l).
Proof.
  induction l as [|j l IH]; simpl; [ constructor | ].
  destruct (job_id j =? J) eqn:HJ.
  - constructor; [ | apply Forall2_same_refl ].
    split; [ repeat split | ].
    apply String.eqb_eq in HJ. congruence.
  - constructor; [ | exact IH ].
    split; [ repeat split | reflexivity ].
Qed.

Lemma renderGallery_keeps_jobList : preserves jobList renderGallery.
Proof. unfold_handlers. frame. Qed.

Lemma handleEvent_never_throws ty J d ts :
  never_throws (handleEvent (mkEvent ty J (Some d) ts)).
Proof. unfold handleEvent. destruct (eventType ty); unfold_handlers; total. Qed.

(** Only four kinds of event write to the catalog. *)
Lemma handleEvent_keeps_jobList e :
  match eventType (type e) with
  | job_started | stage_changed | job_completed | job_failed => False
  | _ => True
  end -> preserves jobList (handleEvent e).
Proof.
  destruct e as [ty J d ts]. simpl. unfold handleEvent.
  destruct (eventType ty); intros H; try contradiction; unfold_handlers; frame.
Qed.

Lemma stage_event_jobList e s :
  eventType (type e) = stage_changed \/ eventType (type e) = job_completed \/
  eventType (type e) = job_failed ->
  jobList (exec (handleEvent e) s) = jobList s \/
  exists st, jobList (exec (handleEvent e) s) =
    assign_first (fun j => job_id j =? ev_job_id e) (with_stage st) (jobList s).
Proof.
  destruct e as [ty J d ts]. simpl. unfold handleEvent.
  intros [H|[H|H]]; rewrite H.
  - destruct d as [d|]; [ | left; reflexivity ].
    right. exists (d_stage d). reflexivity.
  - right. exists (Some "complete").
    unfold updateJobStage. rewrite exec_modify.
    rewrite (preserves_exec jobList) by (unfold_handlers; frame). reflexivity.
  - right. exists (Some "failed").
    unfold updateJobStage. rewrite exec_modify.
    rewrite (preserves_exec jobList) by (unfold_handlers; frame). reflexivity.
Qed.

Lemma job_started_jobList ty J d ts s :
  eventType ty = job_started ->
  jobList (exec (handleEvent (mkEvent ty J d ts)) s) =
    match findJob J (jobList s), d with
    | None, Some d => provisional J (d_prompt d) ts :: jobList s
    | _, _ => jobList s
    end.
Proof.
  intros H. unfold handleEvent. rewrite H.
  unfold showPipelineCards, renderPipeline, on_dom, delete_detail.
  rewrite !exec_modify. unfold exec. simpl.
  destruct (findJob J (jobList s)); simpl.
  - exact (renderGallery_keeps_jobList _).
  - destruct d as [d|]; simpl; [ | reflexivity ].
    exact (renderGallery_keeps_jobList _).
Qed.

Lemma unknown_job_jobList ty J d ts s :
  eventType ty <> job_started ->
  findJob J (jobList s) = None ->
  jobList (exec (handleEvent (mkEvent ty J d ts)) s) = jobList s.
Proof.
  intros Hty HJ.
  destruct (eventType ty) eqn:E; try contradiction;
    try (apply (handleEvent_keeps_jobList (mkEvent ty J d ts)); simpl; rewrite E; exact I).
  all: destruct (stage_event_jobList (mkEvent ty J d ts) s) as [Heq | [st Heq]];
    [ simpl; rewrite E; auto | exact Heq | rewrite Heq ].
  all: apply assign_first_absent; exact HJ.
Qed.

(** C10.  A [stage_changed], [job_completed] or [job_failed] event for job
    J leaves the catalog with the same entries in the same order: every
    entry keeps all its fields but possibly the stage, and every entry of
    another job is unchanged. *)
Theorem stage_events_only_touch_stage (s : State) (e : Event) :
  eventType (type e) = stage_changed \/ eventType (type e) = job_completed \/
  eventType (type e) = job_failed ->
  Forall2 (fun j j' => same_but_stage j j' /\ (job_id j <> ev_job_id e -> j' = j))
          (jobList s) (jobList (exec (handleEvent e) s)).
Proof.
  intros H. destruct (stage_event_jobList e s H) as [-> | [st ->]].
  - apply Forall2_same_refl.
  - apply assign_first_frame.
Qed.

Lemma stage_events_only_touch_stage_witness :
  let s := Scenario.loaded [Scenario.summary "zzz999" "complete";
                            Scenario.summary "abc123" "generating"] in
  eventType (type Scenario.failed) = job_failed /\
  Forall2 (fun j j' => same_but_stage j j' /\ (job_id j <> "abc123" -> j' = j))
          (jobList s) (jobList (exec (handleEvent Scenario.failed) s)).
Proof.
  split; [ reflexivity | ].
  apply (stage_events_only_touch_stage _ Scenario.failed).
  right. right. reflexivity.
Defined.

(** *** After [job_failed] *)

Lemma stays_failed J e s :
  stageOf J s = Some (Some "failed") ->
  restages J e = false ->
  stageOf J (exec (handleEvent e) s) = Some (Some "failed").
Proof.
  intros Hs Hr. destruct e as [ty K d ts]. unfold restages in Hr. simpl in Hr.
  unfold stageOf in *.
  destruct (eventType ty) eqn:E.
  - rewrite job_started_jobList by exact E.
    destruct (findJob K (jobList s)) eqn:HK; [ exact Hs | ].
    destruct d as [d|]; [ | exact Hs ].
    unfold findJob at 1. simpl.
    destruct (K =? J) eqn:HKJ; [ | exact Hs ].
    apply String.eqb_eq in HKJ. subst K. rewrite HK in Hs. discriminate.
  - rewrite andb_true_r in Hr.
    destruct (stage_event_jobList (mkEvent ty K d ts) s) as [Heq | [st Heq]];
      [ simpl; auto | rewrite Heq; exact Hs | rewrite Heq ].
    simpl. rewrite findJob_assign_first by reflexivity.
    rewrite String.eqb_sym, Hr. exact Hs.
  - rewrite (handleEvent_keeps_jobList (mkEvent ty K d ts)); [ exact Hs | ].
    simpl. rewrite E. exact I.
  - rewrite (handleEvent_keeps_jobList (mkEvent ty K d ts)); [ exact Hs | ].
    simpl. rewrite E. exact I.
  - rewrite (handleEvent_keeps_jobList (mkEvent ty K d ts)); [ exact Hs | ].
    simpl. rewrite E. exact I.
  - rewrite (handleEvent_keeps_jobList (mkEvent ty K d ts)); [ exact Hs | ].
    simpl. rewrite E. exact I.
  - rewrite (handleEvent_keeps_jobList (mkEvent ty K d ts)); [ exact Hs | ].
    simpl. rewrite E. exact I.
  - rewrite andb_true_r in Hr.
    destruct (stage_event_jobList (mkEvent ty K d ts) s) as [Heq | [st Heq]];
      [ simpl; auto | rewrite Heq; exact Hs | rewrite Heq ].
    simpl. rewrite findJob_assign_first by reflexivity.
    rewrite String.eqb_sym, Hr. exact Hs.
  - unfold handleEvent. rewrite E.
    unfold updateJobStage. rewrite exec_modify.
    rewrite (preserves_exec jobList) by (unfold_handlers; frame).
    simpl. rewrite findJob_assign_first by reflexivity.
    destruct (J =? K); [ | exact Hs ].
    destruct (findJob J (jobList s)); [ reflexivity | discriminate ].
  - unfold handleEvent. rewrite E. exact Hs.
Qed.

(** C4, as the code has it.  Once [job_failed] has been handled for a job
    J of the catalog, J's stage is "failed", and it stays "failed" through
    any later events among which none is a [stage_changed] or
    [job_completed] event for J. *)
Theorem failed_until_restaged (s : State) (e : Event) (evs : list Event) :
  eventType (type e) = job_failed ->
  is_Some (findJob (ev_job_id e) (jobList s)) ->
  Forall (fun e' => restages (ev_job_id e) e' = false) evs ->
  stageOf (ev_job_id e) (exec (handleEvent e) s) = Some (Some "failed") /\
  stageOf (ev_job_id e) (route (exec (handleEvent e) s) evs) = Some (Some "failed").
Proof.
  intros Hty [j Hj] Hevs.
  assert (H1 : stageOf (ev_job_id e) (exec (handleEvent e) s) = Some (Some "failed")).
  { destruct e as [ty J d ts]. simpl in *. unfold stageOf, handleEvent.
    rewrite Hty. unfold updateJobStage. rewrite exec_modify.
    rewrite (preserves_exec jobList) by (unfold_handlers; frame).
    simpl. rewrite findJob_assign_first by reflexivity.
    rewrite String.eqb_refl, Hj. reflexivity. }
  split; [ exact H1 | ].
  revert H1. generalize (exec (handleEvent e) s) as s1.
  induction Hevs as [|e' evs He' _ IH]; intros s1 H1; simpl; [ exact H1 | ].
  apply IH. apply stays_failed; assumption.
Qed.

Lemma failed_until_restaged_witness :
  let s := Scenario.loaded [Scenario.summary "abc123" "generating"] in
  let evs := [Scenario.refined; Scenario.started; Scenario.failed] in
  stageOf "abc123" (exec (handleEvent Scenario.failed) s) = Some (Some "failed") /\
  stageOf "abc123" (route (exec (handleEvent Scenario.failed) s) evs)
    = Some (Some "failed").
Proof.
  apply (failed_until_restaged _ Scenario.failed).
  - reflexivity.
  - vm_compute. eexists. reflexivity.
  - repeat constructor.
Defined.

(** C4, as stated, fails: a [stage_changed] event that arrives after
    [job_failed] moves the job out of "failed". *)
Lemma stage_changed_after_job_failed :
  let s := Scenario.loaded [Scenario.summary "abc123" "generating"] in
  let s1 := exec (handleEvent Scenario.failed) s in
  let s2 := exec (handleEvent (Scenario.staged "evaluating")) s1 in
  stageOf "abc123" s1 = Some (Some "failed") /\
  stageOf "abc123" s2 = Some (Some "evaluating") /\
  stageOf "abc123" s2 <> stageOf "abc123" s1.
Proof. vm_compute. repeat split; discriminate. Qed.

(** *** The detail cache *)

Lemma served_from_cache J d s :
  jobDetailCache s !! J = Some d ->
  sent (host (exec (fetchAndRenderDetail J false) s)) = sent (host s).
Proof.
  intros H. unfold fetchAndRenderDetail, exec. simpl.
  destruct (hasContainer J (dom s)); simpl; [ | reflexivity ].
  unfold cached. rewrite H. reflexivity.
Qed.

(** Without a cache hit, or when forced, a detail access sends
    [GET /api/jobs/J]. *)
Lemma refetched J (force : bool) s :
  hasContainer J (dom s) = true ->
  negb force && cached J (jobDetailCache s) = false ->
  sent (host (exec (fetchAndRenderDetail J force) s)) =
    (sent (host s) ++ [(clock (host s), nextReq (host s), GET_job J)])%list.
Proof.
  intros Hc H. unfold fetchAndRenderDetail, exec. simpl.
  rewrite Hc. simpl. rewrite H. reflexivity.
Qed.

Lemma cached_own J d (cache : gmap string Detail) :
  cache !! J = Some d -> cached J cache = true.
Proof. intros H. unfold cached. now rewrite H. Qed.

Lemma cached_none J (cache : gmap string Detail) :
  cache !! J = None -> cached J cache = inherited J.
Proof. intros H. unfold cached. now rewrite H. Qed.

(** [image_generated], [variant_scored], [image_refined] and
    [job_completed] remove the cached document of their job. *)
Lemma handleEvent_invalidates e s :
  eventType (type e) = image_generated \/ eventType (type e) = variant_scored \/
  eventType (type e) = image_refined \/ eventType (type e) = job_completed ->
  jobDetailCache (exec (handleEvent e) s) !! ev_job_id e = None.
Proof.
  destruct e as [ty J d ts]. simpl. intros H.
  unfold handleEvent.
  destruct H as [H|[H|[H|H]]]; rewrite H.
  - apply lookup_delete_eq.
  - apply lookup_delete_eq.
  - unfold delete_detail. rewrite exec_modify.
    rewrite (preserves_exec jobDetailCache) by (unfold_handlers; frame).
    apply lookup_delete_eq.
  - unfold updateJobStage, renderPipeline, on_dom, delete_detail.
    rewrite !exec_modify.
    rewrite (preserves_exec jobDetailCache) by (unfold_handlers; frame).
    apply lookup_delete_eq.
Qed.

(** After any of these four events an access to the detail of the job,
    if its card is drawn and its id is not a name that the cache
    inherits, sends [GET /api/jobs/J] even when a document was cached
    before. *)
Lemma invalidated_then_refetched e s :
  eventType (type e) = image_generated \/ eventType (type e) = variant_scored \/
  eventType (type e) = image_refined \/ eventType (type e) = job_completed ->
  inherited (ev_job_id e) = false ->
  let s' := exec (handleEvent e) s in
  hasContainer (ev_job_id e) (dom s') = true ->
  sent (host (exec (fetchAndRenderDetail (ev_job_id e) false) s')) =
    (sent (host s') ++
     [(clock (host s'), nextReq (host s'), GET_job (ev_job_id e))])%list.
Proof.
  intros H Hi s' Hc. apply refetched; [ exact Hc | ].
  simpl. rewrite cached_none by apply handleEvent_invalidates, H. exact Hi.
Qed.

Lemma job_failed_keeps_cache e :
  eventType (type e) = job_failed -> preserves jobDetailCache (handleEvent e).
Proof.
  intros H. destruct e as [ty J d ts]. simpl in H.
  unfold handleEvent. rewrite H. unfold_handlers. frame.
Qed.

(** C1.  The claim asks that [job_failed] removes the cached detail of its
    job, as the four sibling cases of [handleEvent] do.  The [job_failed]
    case has no [delete jobDetailCache[job_id]]: a document cached before
    the event is still cached after it, and the next detail access serves
    it without sending a request. *)
Theorem job_failed_keeps_detail_cache (s : State) (e : Event) (d : Detail) :
  eventType (type e) = job_failed ->
  jobDetailCache s !! ev_job_id e = Some d ->
  let s' := exec (handleEvent e) s in
  jobDetailCache s' !! ev_job_id e = Some d /\
  sent (host (exec (fetchAndRenderDetail (ev_job_id e) false) s')) = sent (host s').
Proof.
  intros Hty Hd s'.
  assert (H : jobDetailCache s' !! ev_job_id e = Some d).
  { subst s'. rewrite job_failed_keeps_cache by exact Hty. exact Hd. }
  split; [ exact H | ].
  eapply served_from_cache; exact H.
Qed.

Lemma job_failed_keeps_detail_cache_witness :
  let s := Scenario.expanded [Scenario.summary "abc123" "generating"]
                             Scenario.old_doc in
  let s' := exec (handleEvent Scenario.failed) s in
  jobDetailCache s !! "abc123" = Some Scenario.old_doc /\
  jobDetailCache s' !! "abc123" = Some Scenario.old_doc /\
  sent (host (exec (fetchAndRenderDetail "abc123" false) s')) = sent (host s').
Proof.
  split; [ reflexivity | ].
  apply (job_failed_keeps_detail_cache _ Scenario.failed Scenario.old_doc);
    reflexivity.
Defined.

(** *** Replies *)

Lemma find_drop_other (l : list (nat * Request)) n m :
  n <> m ->
  List.find (fun p => (fst p =? n)%nat)
            (List.filter (fun p => negb (fst p =? m)%nat) l) =
  List.find (fun p => (fst p =? n)%nat) l.
Proof.
  intros Hne. induction l as [|[k q] l IH]; simpl; [ reflexivity | ].
  destruct (k =? m)%nat eqn:Em; simpl.
  - apply Nat.eqb_eq in Em. subst k.
    destruct (m =? n)%nat eqn:En; [ | exact IH ].
    apply Nat.eqb_eq in En. congruence.
  - now rewrite IH.
Qed.

(** C3, as the code has it.  Replies carry no sequence check: when two
    detail requests for the same job are in flight and the later-issued
    one is answered first, its document is cached, and the answer to the
    earlier-issued one, arriving afterwards, replaces it.  The cache holds
    the reply that arrived last. *)
Theorem last_reply_wins (s : State) (n1 n2 : nat) (J : string) (d1 d2 : Detail) :
  n1 < n2 ->
  pending n1 s = Some (n1, GET_job J) ->
  pending n2 s = Some (n2, GET_job J) ->
  jobDetailCache (deliver n2 (job_reply d2) s) !! J = Some d2 /\
  jobDetailCache (deliver n1 (job_reply d1) (deliver n2 (job_reply d2) s)) !! J
    = Some d1.
Proof.
  unfold pending. intros Hlt H1 H2.
  assert (Hs2 : deliver n2 (job_reply d2) s =
    set_jobDetailCache (<[J := d2]> (jobDetailCache s))
      (set_state_host (drop_inflight n2 (host s)) s)).
  { unfold deliver. rewrite H2. reflexivity. }
  rewrite Hs2. split; [ apply lookup_insert_eq | ].
  unfold deliver. simpl.
  rewrite find_drop_other by lia. rewrite H1. simpl.
  apply lookup_insert_eq.
Qed.

(** The card of abc123 is clicked (request 1), then [image_refined]
    forces a refetch (request 2) while request 1 is still in flight. *)
Lemma last_reply_wins_witness :
  let s := run (Scenario.loaded [Scenario.summary "abc123" "generating"])
               [card_click "abc123"; ws_message (json_object Scenario.refined)] in
  pending 1 s = Some (1, GET_job "abc123") /\
  pending 2 s = Some (2, GET_job "abc123") /\
  jobDetailCache (deliver 2 (job_reply Scenario.new_doc) s) !! "abc123"
    = Some Scenario.new_doc /\
  jobDetailCache (deliver 1 (job_reply Scenario.old_doc)
                    (deliver 2 (job_reply Scenario.new_doc) s)) !! "abc123"
    = Some Scenario.old_doc.
Proof.
  split; [ reflexivity | ]. split; [ reflexivity | ].
  apply (last_reply_wins _ 1 2 "abc123" Scenario.old_doc Scenario.new_doc).
  - lia.
  - reflexivity.
  - reflexivity.
Defined.

(** C3, as stated, fails: the document of the earlier-issued request 1,
    answered after the later-issued request 2, overwrites the newer one. *)
Lemma stale_reply_overwrites :
  let s := run (Scenario.loaded [Scenario.summary "abc123" "generating"])
               [card_click "abc123";
                ws_message (json_object Scenario.refined);
                reply 2 (job_reply Scenario.new_doc);
                reply 1 (job_reply Scenario.old_doc)] in
  map snd (sent (host s)) =
    [GET_jobs [("sort", "newest")]; GET_job "abc123"; GET_job "abc123"] /\
  jobDetailCache s !! "abc123" = Some Scenario.old_doc /\
  jobDetailCache s !! "abc123" <> Some Scenario.new_doc.
Proof. vm_compute. repeat split; discriminate. Qed.

(** C7, as the code has it.  When the reply to a catalog request arrives
    and its body is the list [l], [loadJobs] assigns [l] to [jobList]:
    the catalog is exactly that list.  Nothing is kept from before and
    nothing is merged, so a job that [job_started] had put in front is
    gone when [l] does not list it. *)
Theorem reload_replaces_catalog (s : State) (n : nat)
    (params : list (string * string)) (l : list JobSummary) :
  pending n s = Some (n, GET_jobs params) ->
  jobList (deliver n (jobs_reply l) s) = l.
Proof.
  unfold pending. intros H. unfold deliver. rewrite H.
  unfold loadJobs_resume. rewrite exec_modify.
  rewrite (preserves_exec jobList) by (unfold_handlers; frame). reflexivity.
Qed.

Lemma reload_replaces_catalog_witness :
  let s := run initial [ws_message (json_object Scenario.started);
                        sort_change "newest"] in
  let l := [Scenario.summary "zzz999" "complete"] in
  pending 0 s = Some (0, GET_jobs [("sort", "newest")]) /\
  jobList (deliver 0 (jobs_reply l) s) = l.
Proof.
  split; [ reflexivity | ].
  apply (reload_replaces_catalog _ 0 [("sort", "newest")]).
  reflexivity.
Defined.

(** C7, as stated, fails: the job that [job_started] put in the catalog
    is gone after a reload whose reply does not list it. *)
Lemma reload_drops_optimistic_job :
  let s := run initial [ws_message (json_object Scenario.started);
                        sort_change "newest"] in
  let s' := step s (reply 0 (jobs_reply [Scenario.summary "zzz999" "complete"])) in
  map job_id (jobList s) = ["abc123"] /\
  map job_id (jobList s') = ["zzz999"] /\
  findJob "abc123" (jobList s') = None.
Proof. vm_compute. repeat split. Qed.

(** *** Timers and the debounced search *)

Lemma earliest_spec t l :
  match earliest t l with
  | Some x => In x l /\ t_due x <= t /\
              forall y, In y l -> t_due y <= t -> t_due x <= t_due y
  | None => forall y, In y l -> t < t_due y
  end.
Proof.
  induction l as [|x l IH]; simpl; [ intros y [] | ].
  destruct (earliest t l) as [y|].
  - destruct IH as (Hin & Hdue & Hmin).
    destruct (t_due x <=? t)%nat eqn:Ex; simpl.
    + apply Nat.leb_le in Ex.
      destruct (t_due x <=? t_due y)%nat eqn:Exy.
      * apply Nat.leb_le in Exy. repeat split; auto.
        intros z [<-|Hz] Hzt; [ lia | ]. specialize (Hmin z Hz Hzt). lia.
      * apply Nat.leb_gt in Exy. repeat split; auto.
        intros z [<-|Hz] Hzt; [ lia | ]. auto.
    + apply Nat.leb_gt in Ex. repeat split; auto.
      intros z [<-|Hz] Hzt; [ lia | ]. auto.
  - destruct (t_due x <=? t)%nat eqn:Ex.
    + apply Nat.leb_le in Ex. repeat split; auto.
      intros z [<-|Hz] Hzt; [ lia | ]. specialize (IH z Hz). lia.
    + apply Nat.leb_gt in Ex. intros z [<-|Hz]; auto.
Qed.

Lemma In_drop (l : list Timer) id tm :
  In tm (List.filter (fun t => negb (t_id t =? id)%nat) l) <->
  In tm l /\ t_id tm <> id.
Proof.
  rewrite filter_In. rewrite negb_true_iff, Nat.eqb_neq. reflexivity.
Qed.

Lemma drop_shorter (l : list Timer) x :
  In x l ->
  length (List.filter (fun t => negb (t_id t =? t_id x)%nat) l) < length l.
Proof.
  induction l as [|y l IH]; simpl; [ intros [] | ].
  intros [->|Hin].
  - rewrite Nat.eqb_refl. simpl.
    pose proof (filter_length_le (fun t => negb (t_id t =? t_id x)%nat) l). lia.
  - specialize (IH Hin). destruct (negb _); simpl; lia.
Qed.

(** Firing timers that are all reconnect timers. *)
Lemma fire_connects fuel t s :
  (forall tm, In tm (timers (host s)) -> t_due tm <= t -> t_cb tm = cb_connect) ->
  let s' := fireDue fuel t s in
  searchView s' = searchView s /\
  clock (host s') <= Nat.max (clock (host s)) t /\
  clock (host s) <= clock (host s') /\
  (forall tm, In tm (timers (host s')) -> In tm (timers (host s))) /\
  (forall tm, In tm (timers (host s)) ->
     (forall x, In x (timers (host s)) -> t_id x = t_id tm -> t < t_due x) ->
     In tm (timers (host s'))).
Proof.
  revert s. induction fuel as [|fuel IH]; intros s Hc; simpl.
  - repeat split; auto; lia.
  - pose proof (earliest_spec t (timers (host s))) as He.
    destruct (earliest t (timers (host s))) as [x|].
    2:{ repeat split; auto; lia. }
    destruct He as (Hin & Hdue & _).
    rewrite (Hc x Hin Hdue).
    match goal with |- context [fireDue fuel t ?s2] => set (s2' := s2) end.
    assert (Ht2 : timers (host s2') =
                  List.filter (fun t => negb (t_id t =? t_id x)%nat) (timers (host s)))
      by reflexivity.
    assert (Hc2 : forall tm, In tm (timers (host s2')) -> t_due tm <= t ->
                             t_cb tm = cb_connect).
    { intros tm Htm. rewrite Ht2 in Htm. apply In_drop in Htm as [Htm _]. auto. }
    destruct (IH s2' Hc2) as (Hv & Hck & Hck2 & Hsub & Hkeep).
    assert (Hclk : clock (host s2') = Nat.max (clock (host s)) (t_due x)) by reflexivity.
    repeat split.
    + rewrite Hv. reflexivity.
    + lia.
    + lia.
    + intros tm Htm. apply Hsub in Htm. rewrite Ht2 in Htm.
      apply In_drop in Htm. tauto.
    + intros tm Htm Hnd. apply Hkeep.
      * rewrite Ht2. apply In_drop. split; [ exact Htm | ].
        intros Heq. specialize (Hnd x Hin (eq_sym Heq)). lia.
      * intros y Hy. rewrite Ht2 in Hy. apply In_drop in Hy as [Hy _]. auto.
Qed.

Lemma advance_idle t s :
  idle s -> clock (host s) <= t ->
  idle (advance t s) /\ searchView (advance t s) = searchView s /\
  clock (host (advance t s)) = t.
Proof.
  intros Hi Hc. unfold advance.
  destruct (fire_connects (length (timers (host s))) t s) as (Hv & Hck & Hck2 & Hsub & _).
  { intros tm Htm _. apply Hi, Htm. }
  set (s' := fireDue _ t s) in *.
  assert (Hnt : nextTimer (host s') = nextTimer (host s)).
  { unfold searchView in Hv. congruence. }
  repeat split.
  - apply Hi, Hsub, H.
  - simpl in H. apply Hsub in H. simpl. rewrite Hnt. apply Hi, H.
  - exact Hv.
  - simpl. lia.
Qed.

Lemma advance_armed id D t s :
  armed id D s -> clock (host s) <= t -> t < D ->
  armed id D (advance t s) /\ searchView (advance t s) = searchView s /\
  clock (host (advance t s)) = t.
Proof.
  intros (Hsd & Hin & Hall) Hc Ht. unfold advance.
  destruct (fire_connects (length (timers (host s))) t s) as (Hv & Hck & Hck2 & Hsub & Hkeep).
  { intros tm Htm Hdue. destruct (Hall tm Htm) as (_ & Hsame & Hother).
    destruct (Nat.eq_dec (t_id tm) id) as [E|E]; [ | auto ].
    rewrite (Hsame E) in Hdue. simpl in Hdue. lia. }
  set (s' := fireDue _ t s) in *.
  assert (Hnt : nextTimer (host s') = nextTimer (host s)).
  { unfold searchView in Hv. congruence. }
  assert (Hsd' : searchDebounce s' = searchDebounce s).
  { unfold searchView in Hv. congruence. }
  repeat split.
  - simpl. congruence.
  - simpl. apply Hkeep; [ exact Hin | ].
    intros x Hx Hid. simpl in Hid. destruct (Hall x Hx) as (_ & Hsame & _).
    rewrite (Hsame Hid). simpl. exact Ht.
  - simpl in H. apply Hsub in H. simpl. rewrite Hnt. apply Hall, H.
  - simpl in H. apply Hsub in H. apply Hall, H.
  - simpl in H. apply Hsub in H. apply Hall, H.
  - exact Hv.
  - simpl. lia.
Qed.

Lemma idle_ready s : idle s -> ready s.
Proof. intros H tm Htm. destruct (H tm Htm). auto. Qed.

Lemma armed_ready id D s : armed id D s -> ready s.
Proof.
  intros (Hsd & _ & Hall) tm Htm. destruct (Hall tm Htm) as (Hlt & _ & Hother).
  split; [ exact Hlt | ].
  destruct (Nat.eq_dec (t_id tm) id) as [E|E]; [ right; congruence | left; auto ].
Qed.

Lemma onSearchInput_arms v s :
  ready s ->
  let s' := exec (onSearchInput v) s in
  armed (nextTimer (host s)) (clock (host s) + 350) s' /\
  sent (host s') = sent (host s) /\ nextReq (host s') = nextReq (host s) /\
  searchInput (dom s') = v /\ sortSelect (dom s') = sortSelect (dom s) /\
  clock (host s') = clock (host s).
Proof.
  intros Hr. unfold exec, onSearchInput, on_dom, clearTimeout, setTimeout, on_host.
  simpl. destruct (searchDebounce s) as [old|] eqn:Hsd; simpl.
  - repeat split.
    + apply in_or_app. right. left. reflexivity.
    + simpl in H. apply in_app_or in H as [H|[<-|[]]]; simpl; [ | lia ].
      apply In_drop in H as [H _]. apply Hr in H. lia.
    + intros Hid. simpl in H. apply in_app_or in H as [H|[<-|[]]]; [ | reflexivity ].
      apply In_drop in H as [H _]. apply Hr in H. lia.
    + intros Hne. simpl in H. apply in_app_or in H as [H|[<-|[]]]; simpl in *; [ | lia ].
      apply In_drop in H as [H Hne2]. destruct (Hr tm H) as (_ & [Hcb|Heq]); [ exact Hcb | ].
      congruence.
  - repeat split.
    + apply in_or_app. right. left. reflexivity.
    + simpl in H. apply in_app_or in H as [H|[<-|[]]]; simpl; [ | lia ].
      apply Hr in H. lia.
    + intros Hid. simpl in H. apply in_app_or in H as [H|[<-|[]]]; [ | reflexivity ].
      apply Hr in H. lia.
    + intros Hne. simpl in H. apply in_app_or in H as [H|[<-|[]]]; simpl in *; [ | lia ].
      destruct (Hr tm H) as (_ & [Hcb|Heq]); [ exact Hcb | congruence ].
Qed.

Lemma fire_debounce fuel id D T s :
  armed id D s -> clock (host s) <= D -> D <= T ->
  length (timers (host s)) <= fuel ->
  sent (host (fireDue fuel T s)) =
    (sent (host s) ++ [(D, nextReq (host s), query s)])%list.
Proof.
  revert s. induction fuel as [|fuel IH]; intros s Ha Hc HT Hlen.
  - destruct Ha as (_ & Hin & _).
    destruct (timers (host s)); [ destruct Hin | simpl in Hlen; lia ].
  - simpl. pose proof (earliest_spec T (timers (host s))) as He.
    destruct Ha as (Hsd & Hin & Hall).
    destruct (earliest T (timers (host s))) as [x|].
    2:{ specialize (He _ Hin). simpl in He. lia. }
    destruct He as (Hx & Hdue & Hmin).
    specialize (Hmin _ Hin). simpl in Hmin. specialize (Hmin HT).
    destruct (Hall x Hx) as (Hlt & Hsame & Hother).
    destruct (Nat.eq_dec (t_id x) id) as [E|E].
    + rewrite (Hsame E). simpl t_cb. simpl t_due. simpl t_id.
      match goal with |- context [fireDue fuel T ?s2] => set (s2' := s2) end.
      destruct (fire_connects fuel T s2') as (Hv & _).
      { intros tm Htm _. simpl in Htm. apply In_drop in Htm as [Htm Hne].
        apply Hall; assumption. }
      unfold searchView in Hv.
      assert (Hs : sent (host (fireDue fuel T s2')) = sent (host s2')) by congruence.
      rewrite Hs. simpl. unfold query. rewrite Nat.max_r by exact Hc. reflexivity.
    + rewrite (Hother E).
      match goal with |- context [fireDue fuel T ?s2] => set (s2' := s2) end.
      assert (Ht2 : timers (host s2') =
                    List.filter (fun t => negb (t_id t =? t_id x)%nat) (timers (host s)))
        by reflexivity.
      rewrite (IH s2').
      * reflexivity.
      * repeat split.
        -- exact Hsd.
        -- rewrite Ht2. apply In_drop. split; [ exact Hin | simpl; congruence ].
        -- rewrite Ht2 in H. apply In_drop in H as [H _]. apply Hall, H.
        -- rewrite Ht2 in H. apply In_drop in H as [H _]. apply Hall, H.
        -- rewrite Ht2 in H. apply In_drop in H as [H _]. apply Hall, H.
      * simpl. lia.
      * exact HT.
      * rewrite Ht2. pose proof (drop_shorter _ _ Hx). lia.
Qed.

Lemma advance_fires id D T s :
  armed id D s -> clock (host s) <= D -> D <= T ->
  sent (host (advance T s)) =
    (sent (host s) ++ [(D, nextReq (host s), query s)])%list.
Proof.
  intros Ha Hc HT. unfold advance. simpl.
  apply (fire_debounce _ id); auto.
Qed.

Lemma last_cons {A} (a d : A) l : List.last (a :: l) d = List.last l a.
Proof.
  revert a d. induction l as [|b l IH]; intros a d; [ reflexivity | ].
  change (List.last (a :: b :: l) d) with (List.last (b :: l) d).
  rewrite (IH b d), (IH b a). reflexivity.
Qed.

Lemma run_app s l1 l2 : run s (l1 ++ l2) = run (run s l1) l2.
Proof. apply fold_left_app. Qed.

Lemma typing_arms rest : forall s id t v,
  armed id (t + 350) s -> clock (host s) = t -> searchInput (dom s) = v ->
  spaced t rest ->
  let s' := run s (keystrokes rest) in
  let tn := fst (List.last rest (t, v)) in
  let vn := snd (List.last rest (t, v)) in
  (exists id', armed id' (tn + 350) s') /\
  clock (host s') = tn /\ searchInput (dom s') = vn /\
  sent (host s') = sent (host s) /\ nextReq (host s') = nextReq (host s) /\
  sortSelect (dom s') = sortSelect (dom s).
Proof.
  induction rest as [|[t' v'] rest IH]; intros s id t v Ha Hc Hv Hsp.
  - simpl. repeat split; eauto.
  - destruct Hsp as (Hle & Hlt & Hsp). simpl run.
    destruct (advance_armed id (t + 350) t' s Ha) as (Ha1 & Hv1 & Hc1); [ lia | lia | ].
    set (s1 := advance t' s) in *.
    destruct (onSearchInput_arms v' s1 (armed_ready _ _ _ Ha1))
      as (Ha2 & Hs2 & Hn2 & Hi2 & Ho2 & Hc2).
    set (s2 := exec (onSearchInput v') s1) in *.
    rewrite Hc1 in Ha2.
    specialize (IH s2 _ t' v' Ha2 (eq_trans Hc2 Hc1) Hi2 Hsp).
    rewrite last_cons.
    unfold searchView in Hv1.
    destruct IH as (He & Hck & Hin & Hsent & Hnr & Hso).
    repeat split; auto; try congruence.
Qed.

Lemma advance_quiet t s :
  (forall tm, In tm (timers (host s)) -> t_due tm <= t -> t_cb tm = cb_connect) ->
  searchView (advance t s) = searchView s.
Proof.
  intros H. unfold advance.
  destruct (fire_connects (length (timers (host s))) t s H) as (Hv & _).
  exact Hv.
Qed.

Lemma onSortChange_sends v s :
  sent (host (exec (onSortChange v) s)) =
    (sent (host s) ++
     [(clock (host s), nextReq (host s),
       GET_jobs (param "search" (trim (searchInput (dom s))) ++ param "sort" v))])%list.
Proof. reflexivity. Qed.

(** C8.  The search box is idle and then changes at times t1, t2, ..., tn,
    each change less than 350ms after the one before.  After the last
    change a single debounce timer is pending, due at tn + 350, the
    earlier ones having been cancelled.  No catalog query leaves while the
    user types nor before tn + 350; by any time T at or after tn + 350
    exactly one request has been sent, at tn + 350, and it is the catalog
    query for the trimmed final content of the box with the current sort
    key.  A change of the sort key sends its query in the same turn. *)
Theorem debounced_search (s : State) (t1 : nat) (v1 : string)
    (rest : list (nat * string)) (T : nat) :
  idle s -> clock (host s) <= t1 -> spaced t1 rest ->
  fst (List.last rest (t1, v1)) + 350 <= T ->
  let inputs := (t1, v1) :: rest in
  let tn := fst (List.last rest (t1, v1)) in
  let vn := snd (List.last rest (t1, v1)) in
  (exists id, armed id (tn + 350) (run s (keystrokes inputs))) /\
  (forall T', T' < tn + 350 ->
     sent (host (run s (keystrokes inputs ++ [elapse T']))) = sent (host s)) /\
  sent (host (run s (keystrokes inputs ++ [elapse T]))) =
    (sent (host s) ++
     [(tn + 350, nextReq (host s),
       GET_jobs (param "search" (trim vn) ++ param "sort" (sortSelect (dom s))))])%list /\
  (forall s0 v,
     sent (host (exec (onSortChange v) s0)) =
       (sent (host s0) ++
        [(clock (host s0), nextReq (host s0),
          GET_jobs (param "search" (trim (searchInput (dom s0))) ++ param "sort" v))])%list).
Proof.
  intros Hi Hc Hsp HT inputs tn vn.
  destruct (advance_idle t1 s Hi Hc) as (Hi1 & Hv1 & Hc1).
  set (s1 := advance t1 s) in *.
  destruct (onSearchInput_arms v1 s1 (idle_ready _ Hi1))
    as (Ha2 & Hs2 & Hn2 & Hi2 & Ho2 & Hc2).
  set (s2 := exec (onSearchInput v1) s1) in *.
  rewrite Hc1 in Ha2.
  destruct (typing_arms rest s2 _ t1 v1 Ha2 (eq_trans Hc2 Hc1) Hi2 Hsp)
    as ([id Ha] & Hck & Hin & Hsent & Hnr & Hso).
  fold tn vn in Ha, Hck, Hin.
  assert (Hrun : run s (keystrokes inputs) = run s2 (keystrokes rest)) by reflexivity.
  set (s3 := run s2 (keystrokes rest)) in *.
  unfold searchView in Hv1.
  assert (Hsent0 : sent (host s3) = sent (host s)) by congruence.
  assert (Hnr0 : nextReq (host s3) = nextReq (host s)) by congruence.
  assert (Hso0 : sortSelect (dom s3) = sortSelect (dom s)) by congruence.
  split; [ exists id; rewrite Hrun; exact Ha | ].
  split; [ | split ].
  - intros T' HT'. rewrite run_app, Hrun.
    change (run s3 [elapse T']) with (advance T' s3).
    rewrite <- Hsent0.
    assert (Hq : searchView (advance T' s3) = searchView s3).
    { apply advance_quiet. intros tm Htm Hdue.
      destruct Ha as (_ & _ & Hall). destruct (Hall tm Htm) as (_ & Hsame & Hother).
      destruct (Nat.eq_dec (t_id tm) id) as [E|E]; [ | auto ].
      rewrite (Hsame E) in Hdue. simpl in Hdue. lia. }
    unfold searchView in Hq. congruence.
  - rewrite run_app, Hrun.
    change (run s3 [elapse T]) with (advance T s3).
    rewrite (advance_fires id (tn + 350)); [ | exact Ha | lia | exact HT ].
    unfold query. rewrite Hsent0, Hnr0, Hso0, Hin. reflexivity.
  - intros s0 v. apply onSortChange_sends.
Qed.

Lemma debounced_search_witness :
  let rest := [(1100, "ca"); (1300, " cat ")] in
  idle initial /\
  (forall T', T' < 1300 + 350 ->
     sent (host (run initial
       (keystrokes ((1000, "c") :: rest) ++ [elapse T']))) = []) /\
  sent (host (run initial (keystrokes ((1000, "c") :: rest) ++ [elapse 2000]))) =
    [(1650, 0, GET_jobs [("search", "cat")])].
Proof.
  assert (Hi : idle initial) by (intros tm []).
  split; [ exact Hi | ].
  destruct (debounced_search initial 1000 "c" [(1100, "ca"); (1300, " cat ")] 2000)
    as (_ & Hquiet & Hfire & _).
  - exact Hi.
  - simpl. lia.
  - simpl. lia.
  - simpl. lia.
  - split; [ exact Hquiet | exact Hfire ].
Defined.

(** After [advance t] no timer that is due at [t] is left: the fuel that
    [advance] gives to [fireDue] is enough. *)
Lemma fireDue_settles fuel t s :
  length (timers (host s)) <= fuel ->
  forall tm, In tm (timers (host (fireDue fuel t s))) -> t < t_due tm.
Proof.
  revert s. induction fuel as [|fuel IH]; intros s Hlen tm Htm; simpl in Htm.
  - destruct (timers (host s)); [ destruct Htm | simpl in Hlen; lia ].
  - pose proof (earliest_spec t (timers (host s))) as He.
    destruct (earliest t (timers (host s))) as [x|]; [ | auto ].
    destruct He as (Hx & _ & _).
    eapply IH; [ | exact Htm ].
    pose proof (drop_shorter _ _ Hx) as Hs.
    destruct (t_cb x); simpl; lia.
Qed.

Lemma advance_settles t s tm :
  In tm (timers (host (advance t s))) -> t < t_due tm.
Proof. unfold advance. simpl. apply fireDue_settles. lia. Qed.

(** *** The connection *)

Lemma handleEvent_keeps_connection e : preserves connection (handleEvent e).
Proof.
  destruct e as [ty J d ts]. unfold handleEvent.
  destruct (eventType ty); unfold_handlers; frame.
Qed.

Lemma onmessage_keeps_connection p : preserves connection (onmessage p).
Proof.
  unfold onmessage, JSON_parse, destructure.
  repeat first [ apply handleEvent_keeps_connection | frame_step ].
  all: unfold_handlers; frame.
Qed.

Lemma onmessage_never_throws p : never_throws (onmessage p).
Proof. unfold onmessage. total_step. unfold_handlers. total. Qed.


End DashboardFacts.

(** ** The first dashboard *)

Section LegacyFacts.
Import Legacy.

Ltac unfold_legacy :=
  unfold the_job, on_job, renderPipeline, addAgentLogEntry, renderAgentLog,
    renderImages, clearImages, renderJobList, on_dom,
    fetch, setTimeout, clearTimeout, console_error, on_host.

Ltac lookups :=
  repeat (rewrite ?lookup_alter_eq, ?lookup_insert_eq; simpl).


Lemma legacy_unknown_job e d s :
  data e = Some d ->
  jobs s !! ev_job_id e = None ->
  (eventType (type e) = image_generated -> is_Some (d_file_path d)) ->
  handleEvent e s =
    dispatch e
      (set_jobs (<[ev_job_id e := newJob (ev_job_id e) (d_prompt d)]> (jobs s)) s) /\
  fst (handleEvent e s) = Done tt /\
  is_Some (jobs (exec (handleEvent e) s) !! ev_job_id e).
Proof.
  destruct e as [ty J dd ts]. simpl. intros -> HJ Hfp.
  unfold exec, handleEvent, trackJob. simpl. rewrite HJ. simpl.
  split; [ reflexivity | ].
  destruct (eventType ty) eqn:E; unfold_legacy; simpl; lookups; auto.
  destruct Hfp as [p Hp]; [ reflexivity | ]. rewrite Hp. simpl. lookups. auto.
Qed.

Lemma mapM_preserves {X A B} (obs : State -> X) (f : A -> JS State B) l :
  (forall a, preserves obs (f a)) -> preserves obs (mapM f l).
Proof.
  intros Hf. induction l as [|a l IH]; simpl mapM.
  - apply preserves_ret.
  - apply preserves_bind; [ apply Hf | intros b ].
    apply preserves_bind; [ exact IH | intros bs; apply preserves_ret ].
Qed.

Lemma legacy_handleEvent_keeps_connection e : preserves connection (handleEvent e).
Proof.
  destruct e as [ty J d ts]. unfold handleEvent, trackJob, dispatch.
  destruct (eventType ty); unfold_legacy;
    repeat first [ apply mapM_preserves; intros ?; unfold renderImageCard
                 | frame_step ].
Qed.

Lemma legacy_onmessage_keeps_connection p : preserves connection (onmessage p).
Proof.
  unfold onmessage, JSON_parse, destructure.
  repeat first [ apply legacy_handleEvent_keeps_connection | frame_step ].
  all: unfold_legacy; frame.
Qed.

Lemma legacy_onmessage_never_throws p : never_throws (onmessage p).
Proof. unfold onmessage. total_step. unfold_legacy. total. Qed.

End LegacyFacts.

(** ** Both clients *)




(** C6, as the code has it.  An event that carries its data and names a
    job id that the job store does not hold is handled without error by
    both clients (in the first dashboard an [image_generated] event must
    also carry its file path, which the image grid reads; the job id must
    not be a name that the store inherits from [Object.prototype], for
    which [jobs[job_id]] is not empty, and nothing may have been stored
    under [__proto__]).  The first dashboard stores a
    default summary (stage "queued", the prompt of the event or the empty
    string, no images, scores or log) and then applies the effect of the
    event to it.  The v2 dashboard creates a summary only for
    [job_started]; any other event leaves the catalog as it was. *)
Theorem unknown_job_handled (e : Event) (d : EventData) :
  data e = Some d ->
  (forall s : Legacy.State,
     Legacy.jobs s !! ev_job_id e = None ->
     inherited (ev_job_id e) = false -> Legacy.storeIntact s ->
     (eventType (type e) = image_generated -> is_Some (d_file_path d)) ->
     Legacy.handleEvent e s =
       Legacy.dispatch e
         (Legacy.set_jobs
            (<[ev_job_id e := Legacy.newJob (ev_job_id e) (d_prompt d)]>
               (Legacy.jobs s)) s) /\
     fst (Legacy.handleEvent e s) = Done tt /\
     is_Some (Legacy.jobs (exec (Legacy.handleEvent e) s) !! ev_job_id e)) /\
  (forall s : Dashboard.State,
     Dashboard.findJob (ev_job_id e) (Dashboard.jobList s) = None ->
     fst (Dashboard.handleEvent e s) = Done tt /\
     Dashboard.jobList (exec (Dashboard.handleEvent e) s) =
       match eventType (type e) with
       | job_started =>
           Dashboard.provisional (ev_job_id e) (d_prompt d) (timestamp e)
             :: Dashboard.jobList s
       | _ => Dashboard.jobList s
       end).
Proof.
  intros Hd. split.
  - intros s HJ _ _ Hfp. apply legacy_unknown_job; assumption.
  - destruct e as [ty J dd ts]. simpl in Hd. subst dd.
    intros s HJ. simpl in HJ. simpl ev_job_id. simpl timestamp. simpl type.
    split; [ apply never_throws_done, handleEvent_never_throws | ].
    destruct (eventType ty) eqn:E;
      try (apply unknown_job_jobList; [ rewrite E; discriminate | exact HJ ]).
    rewrite job_started_jobList by exact E. rewrite HJ. reflexivity.
Qed.

Lemma unknown_job_handled_witness :
  data (Scenario.staged "generating") = Some (Scenario.with_stage "generating") /\
  inherited "abc123" = false /\ Legacy.jobs Legacy.initial = ∅ /\
  Legacy.stageOf "abc123"
    (exec (Legacy.handleEvent (Scenario.staged "generating")) Legacy.initial)
    = Some (Some "generating") /\
  Dashboard.jobList
    (exec (Dashboard.handleEvent (Scenario.staged "generating")) Dashboard.initial)
    = [].
Proof.
  split; [ reflexivity | ]. split; [ reflexivity | ]. split; [ reflexivity | ].
  destruct (unknown_job_handled (Scenario.staged "generating")
              (Scenario.with_stage "generating") eq_refl) as [HL HD].
  split.
  - destruct (HL Legacy.initial) as (Heq & _ & _);
      [ reflexivity | reflexivity | reflexivity | discriminate | ].
    unfold exec. rewrite Heq. reflexivity.
  - destruct (HD Dashboard.initial) as (_ & Heq); [ reflexivity | ].
    exact Heq.
Defined.

(** C6, as stated, fails in the v2 dashboard: a [stage_changed] event for
    a job id that the catalog does not hold is handled without error, but
    no summary is created for it. *)
Lemma unknown_job_not_created :
  let e := Scenario.staged "generating" in
  let s' := exec (Dashboard.handleEvent e) Dashboard.initial in
  Dashboard.findJob "abc123" (Dashboard.jobList Dashboard.initial) = None /\
  fst (Dashboard.handleEvent e Dashboard.initial) = Done tt /\
  Dashboard.findJob "abc123" (Dashboard.jobList s') = None /\
  Dashboard.jobList s' = [].
Proof. vm_compute. repeat split. Qed.

(** C9, as the code has it.  In both clients: a payload on which
    [JSON.parse] throws, and one that parses to [null], is reported with
    [console.error] and nothing else changes; handling a message never
    throws and never touches the socket, the status indicator or the
    timers, whatever the payload; [onclose] shows the disconnected status
    and sets a reconnect timer 3000ms ahead; [onerror] closes the
    socket. *)
Theorem parse_failure_logged_and_dropped :
  (forall s raw,
     Dashboard.onmessage (not_json raw) s =
       (Done tt,
        Dashboard.set_state_host
          (log_error "WS parse error:" (caught (SyntaxError raw)) (Dashboard.host s))
          s)) /\
  (forall s,
     Dashboard.onmessage json_null s =
       (Done tt,
        Dashboard.set_state_host
          (log_error "WS parse error:"
             (caught (TypeError "Cannot destructure null")) (Dashboard.host s))
          s)) /\
  (forall s p,
     fst (Dashboard.onmessage p s) = Done tt /\
     Dashboard.connection (exec (Dashboard.onmessage p) s) = Dashboard.connection s) /\
  (forall s,
     Dashboard.connection (exec Dashboard.onclose s) =
       (Dashboard.ws s, "status-dot disconnected", "Frånkopplad",
        timers (Dashboard.host s) ++
        [mkTimer (nextTimer (Dashboard.host s))
                 (clock (Dashboard.host s) + 3000) cb_connect])%list) /\
  (forall s, Dashboard.ws (exec Dashboard.onerror s) = close (Dashboard.ws s)) /\
  (forall s raw,
     Legacy.onmessage (not_json raw) s =
       (Done tt,
        Legacy.set_state_host
          (log_error "WS parse error:" (caught (SyntaxError raw)) (Legacy.host s))
          s)) /\
  (forall s,
     Legacy.onmessage json_null s =
       (Done tt,
        Legacy.set_state_host
          (log_error "WS parse error:"
             (caught (TypeError "Cannot destructure null")) (Legacy.host s))
          s)) /\
  (forall s p,
     fst (Legacy.onmessage p s) = Done tt /\
     Legacy.connection (exec (Legacy.onmessage p) s) = Legacy.connection s) /\
  (forall s,
     Legacy.connection (exec Legacy.onclose s) =
       (Legacy.ws s, "status-dot disconnected", "Frånkopplad",
        timers (Legacy.host s) ++
        [mkTimer (nextTimer (Legacy.host s))
                 (clock (Legacy.host s) + 3000) cb_connect])%list) /\
  (forall s, Legacy.ws (exec Legacy.onerror s) = close (Legacy.ws s)).
Proof.
  repeat split; try reflexivity.
  - apply never_throws_done, onmessage_never_throws.
  - apply onmessage_keeps_connection.
  - apply never_throws_done, legacy_onmessage_never_throws.
  - apply legacy_onmessage_keeps_connection.
Qed.

(** C9, as stated, fails: a [job_failed] envelope without its [data]
    object is reported as a parse error, yet by then the handler has
    already set the stage of the job to "failed". *)
Lemma malformed_envelope_partly_applied :
  let s := Scenario.loaded [Scenario.summary "abc123" "generating"] in
  let s' := exec (Dashboard.onmessage (json_object Scenario.failed_bare)) s in
  console (Dashboard.host s') =
    [("WS parse error:",
      caught (TypeError "Cannot read properties of undefined"))] /\
  Dashboard.stageOf "abc123" s = Some (Some "generating") /\
  Dashboard.stageOf "abc123" s' = Some (Some "failed") /\
  Dashboard.jobList s' <> Dashboard.jobList s.
Proof. vm_compute. repeat split; discriminate. Qed.

(** ** More on the v2 dashboard *)

Section DashboardMore.
Import Dashboard.

Ltac unfold_handlers :=
  unfold renderGallery, fetchAndRenderDetail, renderPipeline, renderAgentLog,
    showPipelineCards, agentLog_push, delete_detail, updateJobStage,
    loadJobs, fetch, setTimeout, clearTimeout, console_error, on_host, on_dom.

Lemma ids_assign_first p st l :
  map job_id (assign_first p (with_stage st) l) = map job_id l.
Proof.
  induction l as [|j l IH]; simpl; [ reflexivity | ].
  destruct (p j); simpl; [ reflexivity | now rewrite IH ].
Qed.

Lemma handleEvent_ids e s :
  catalogIds (exec (handleEvent e) s) = catalogIds s \/
  (eventType (type e) = job_started /\
   findJob (ev_job_id e) (jobList s) = None /\
   catalogIds (exec (handleEvent e) s) = ev_job_id e :: catalogIds s).
Proof.
  destruct e as [ty J d ts]. unfold catalogIds. cbn [ev_job_id type].
  destruct (eventType ty) eqn:E.
  - rewrite job_started_jobList by exact E.
    destruct (findJob J (jobList s)) eqn:HJ; [ left; reflexivity | ].
    destruct d; [ right; auto | left; reflexivity ].
  - destruct (stage_event_jobList (mkEvent ty J d ts) s) as [Heq | [st Heq]];
      [ simpl; auto | | ]; rewrite Heq; left; [ reflexivity | apply ids_assign_first ].
  - left. f_equal. apply (handleEvent_keeps_jobList (mkEvent ty J d ts)). simpl. now rewrite E.
  - left. f_equal. apply (handleEvent_keeps_jobList (mkEvent ty J d ts)). simpl. now rewrite E.
  - left. f_equal. apply (handleEvent_keeps_jobList (mkEvent ty J d ts)). simpl. now rewrite E.
  - left. f_equal. apply (handleEvent_keeps_jobList (mkEvent ty J d ts)). simpl. now rewrite E.
  - left. f_equal. apply (handleEvent_keeps_jobList (mkEvent ty J d ts)). simpl. now rewrite E.
  - destruct (stage_event_jobList (mkEvent ty J d ts) s) as [Heq | [st Heq]];
      [ simpl; auto | | ]; rewrite Heq; left; [ reflexivity | apply ids_assign_first ].
  - destruct (stage_event_jobList (mkEvent ty J d ts) s) as [Heq | [st Heq]];
      [ simpl; auto | | ]; rewrite Heq; left; [ reflexivity | apply ids_assign_first ].
  - left. f_equal. apply (handleEvent_keeps_jobList (mkEvent ty J d ts)). simpl. now rewrite E.
Qed.

(** X1.  Push events never remove or reorder catalog entries: after any
    sequence of them the catalog lists the ids it listed before, in the
    same order, behind the ids of the jobs added in the meantime. *)
Theorem events_only_prepend (s : State) (evs : list Event) :
  exists added, catalogIds (route s evs) = (added ++ catalogIds s)%list.
Proof.
  revert s. induction evs as [|e evs IH]; intros s; simpl.
  - exists []. reflexivity.
  - destruct (IH (exec (handleEvent e) s)) as [added Ha].
    destruct (handleEvent_ids e s) as [Heq | (_ & _ & Heq)]; rewrite Heq in Ha.
    + exists added. exact Ha.
    + exists (added ++ [ev_job_id e])%list. rewrite Ha, <- app_assoc. reflexivity.
Qed.

Lemma after_bind {S A B} (Q : S -> Prop) (c : JS S A) (k : A -> JS S B) s :
  Q (exec c s) -> (forall a s', Q s' -> Q (exec (k a) s')) ->
  Q (exec (bind c k) s).
Proof.
  unfold exec. simpl. intros Hc Hk.
  destruct (c s) as [[a|e] s1]; simpl in *; [ apply Hk, Hc | exact Hc ].
Qed.

Lemma sync_from_obs s s' : cardsObs s' = cardsObs s -> cards_in_sync s -> cards_in_sync s'.
Proof. unfold cardsObs, cards_in_sync, catalogIds. intros H. injection H as -> ->. auto. Qed.

Lemma renderGallery_syncs s : cards_in_sync (exec renderGallery s).
Proof.
  unfold renderGallery.
  change (cards_in_sync (exec (match jobList s with
    | [] => on_dom (set_galleryCards [])
    | _ :: _ => on_dom (set_galleryCards (map job_id (jobList s))) ;;
        expanded <- gets expandedJobId ;;
        match truthy expanded with
        | Some id => fetchAndRenderDetail id false
        | None => ret tt
        end
    end) s)).
  destruct (jobList s) as [|j l] eqn:Hl.
  - unfold cards_in_sync, catalogIds. simpl. now rewrite Hl.
  - apply after_bind.
    + unfold cards_in_sync, catalogIds. simpl. now rewrite Hl.
    + intros a s' Hs'. eapply sync_from_obs; [ | exact Hs' ].
      apply (preserves_exec cardsObs). unfold_handlers. frame.
Qed.

Lemma handleEvent_sync e s : cards_in_sync s -> cards_in_sync (exec (handleEvent e) s).
Proof.
  intros Hs. destruct e as [ty J d ts]. unfold handleEvent.
  destruct (eventType ty) eqn:E.
  - unfold showPipelineCards, renderPipeline, on_dom, delete_detail.
    rewrite !exec_modify. unfold exec. simpl.
    destruct (findJob J (jobList s)); simpl.
    + apply renderGallery_syncs.
    + destruct d; simpl; [ apply renderGallery_syncs | exact Hs ].
  - destruct d as [d|]; [ | exact Hs ].
    unfold cards_in_sync, catalogIds in *. simpl. rewrite ids_assign_first. exact Hs.
  - eapply sync_from_obs; [ | exact Hs ]. apply (preserves_exec cardsObs). unfold_handlers. frame.
  - eapply sync_from_obs; [ | exact Hs ]. apply (preserves_exec cardsObs). unfold_handlers. frame.
  - eapply sync_from_obs; [ | exact Hs ]. apply (preserves_exec cardsObs). unfold_handlers. frame.
  - eapply sync_from_obs; [ | exact Hs ]. apply (preserves_exec cardsObs). unfold_handlers. frame.
  - eapply sync_from_obs; [ | exact Hs ]. apply (preserves_exec cardsObs). unfold_handlers. frame.
  - unfold updateJobStage, renderPipeline, on_dom, delete_detail.
    rewrite !exec_modify.
    apply after_bind; [ apply renderGallery_syncs | ].
    intros a s' Hs'. eapply sync_from_obs; [ | exact Hs' ].
    apply (preserves_exec cardsObs). unfold_handlers. frame.
  - unfold updateJobStage, renderPipeline, on_dom, agentLog_push, renderAgentLog.
    rewrite !exec_modify. unfold exec. simpl.
    destruct d; simpl; [ apply renderGallery_syncs | ].
    unfold cards_in_sync, catalogIds in *. simpl. rewrite ids_assign_first. exact Hs.
  - exact Hs.
Qed.

Lemma after_try_catch {S A} (Q : S -> Prop) (c : JS S A) h s :
  Q (exec c s) -> (forall e s', Q s' -> Q (exec (h e) s')) ->
  Q (exec (try_catch c h) s).
Proof.
  unfold exec. simpl. intros Hc Hh.
  destruct (c s) as [[a|e] s1]; simpl in *; [ exact Hc | apply Hh, Hc ].
Qed.

Lemma fireDue_preserves {X} (obs : State -> X) :
  (forall h s, obs (set_state_host h s) = obs s) ->
  preserves obs connect -> preserves obs loadJobs ->
  forall fuel t s, obs (fireDue fuel t s) = obs s.
Proof.
  intros Hh Hc Hl fuel t. induction fuel as [|fuel IH]; intros s; simpl.
  - reflexivity.
  - destruct (earliest t (timers (host s))) as [tm|]; [ | reflexivity ].
    rewrite IH. destruct (t_cb tm); simpl runCallback.
    + rewrite Hc. apply Hh.
    + rewrite Hl. apply Hh.
Qed.

Lemma advance_preserves {X} (obs : State -> X) t s :
  (forall h s, obs (set_state_host h s) = obs s) ->
  preserves obs connect -> preserves obs loadJobs ->
  obs (advance t s) = obs s.
Proof.
  intros Hh Hc Hl. unfold advance. rewrite Hh. now apply fireDue_preserves.
Qed.

Lemma onmessage_maintains (Q : State -> Prop) :
  (forall e s, Q s -> Q (exec (handleEvent e) s)) ->
  (forall h s, Q s -> Q (set_state_host (log_error "WS parse error:" h (host s)) s)) ->
  forall p s, Q s -> Q (exec (onmessage p) s).
Proof.
  intros He Hlog p s Hs. unfold onmessage. apply after_try_catch.
  - destruct p as [raw| |e]; [ exact Hs | exact Hs | ]. apply He, Hs.
  - intros e s' Hs'. apply (Hlog (caught e)), Hs'.
Qed.

Lemma step_sync s e : cards_in_sync s -> cards_in_sync (step s e).
Proof.
  intros Hs. destruct e as [ | | |p|v|v|j|n r|t]; simpl step.
  - exact Hs.
  - exact Hs.
  - exact Hs.
  - apply onmessage_maintains; [ intros; now apply handleEvent_sync | auto | exact Hs ].
  - eapply sync_from_obs; [ | exact Hs ].
    apply (preserves_exec cardsObs). unfold onSearchInput. unfold_handlers. frame.
  - eapply sync_from_obs; [ | exact Hs ].
    apply (preserves_exec cardsObs). unfold onSortChange. unfold_handlers. frame.
  - unfold toggleJob, exec. simpl.
    destruct (bool_decide _); simpl; apply renderGallery_syncs.
  - unfold deliver.
    destruct (List.find _ _) as [[k req]|]; [ | exact Hs ].
    destruct req as [params|J]; destruct r; try exact Hs.
    unfold loadJobs_resume. rewrite exec_modify. apply renderGallery_syncs.
  - eapply sync_from_obs; [ | exact Hs ].
    apply (advance_preserves cardsObs); [ reflexivity | | ];
      unfold connect; unfold_handlers; frame.
Qed.

Lemma run_maintains (Q : State -> Prop) :
  (forall s e, Q s -> Q (step s e)) ->
  forall l s, Q s -> Q (run s l).
Proof.
  intros Hstep l. induction l as [|e l IH]; intros s Hs; simpl; [ exact Hs | ].
  apply IH, Hstep, Hs.
Qed.

(** X2.  In every state that the page reaches from its initial state, the
    gallery shows exactly one card per catalog entry, in catalog order:
    whatever changes the list of job ids redraws the gallery. *)
Theorem cards_always_in_sync (l : list HostEvent) :
  cards_in_sync (run initial l).
Proof. apply run_maintains; [ apply step_sync | reflexivity ]. Qed.

Lemma timers_ok_from_obs s s' :
  timerObs s' = timerObs s -> timers_ok s -> timers_ok s'.
Proof.
  unfold timerObs, timers_ok, ready. intros H. injection H as -> -> ->. auto.
Qed.

Lemma NoDup_ids_filter (keep : Timer -> bool) l :
  NoDup (map t_id l) -> NoDup (map t_id (List.filter keep l)).
Proof.
  rewrite !NoDup_ListNoDup.
  induction l as [|x l IH]; simpl; intros H; [ constructor | ].
  inversion H as [|? ? Hx Hl]; subst.
  destruct (keep x); simpl; [ | auto ].
  constructor; [ | auto ].
  intros Hin. apply Hx. apply in_map_iff in Hin as (y & Hy & Hyin).
  apply in_map_iff. exists y. split; [ exact Hy | ].
  apply filter_In in Hyin. tauto.
Qed.

Lemma NoDup_ids_inj (l : list Timer) a b :
  NoDup (map t_id l) -> In a l -> In b l -> t_id a = t_id b -> a = b.
Proof.
  rewrite NoDup_ListNoDup.
  induction l as [|x l IH]; simpl; intros H Ha Hb Heq; [ contradiction | ].
  inversion H as [|? ? Hx Hl]; subst.
  destruct Ha as [->|Ha], Hb as [->|Hb]; auto.
  - exfalso. apply Hx. rewrite Heq. now apply in_map.
  - exfalso. apply Hx. rewrite <- Heq. now apply in_map.
Qed.

Lemma NoDup_ids_fresh (l : list Timer) (x : Timer) :
  NoDup (map t_id l) -> (forall y, In y l -> t_id y < t_id x) ->
  NoDup (map t_id (l ++ [x])).
Proof.
  rewrite !NoDup_ListNoDup. intros Hnd Hlt.
  rewrite map_app. simpl.
  apply List.NoDup_app.
  - exact Hnd.
  - constructor; [ intros [] | constructor ].
  - intros a Ha [<-|[]]. apply in_map_iff in Ha as (y & Hy & Hyin).
    apply Hlt in Hyin. lia.
Qed.

Lemma fireDue_timers fuel t s :
  nextTimer (host (fireDue fuel t s)) = nextTimer (host s) /\
  searchDebounce (fireDue fuel t s) = searchDebounce s /\
  exists keep, timers (host (fireDue fuel t s)) = List.filter keep (timers (host s)).
Proof.
  revert s. induction fuel as [|fuel IH]; intros s; simpl.
  - repeat split. exists (fun _ => true). symmetry. apply forallb_filter_id.
    apply forallb_forall. reflexivity.
  - destruct (earliest t (timers (host s))) as [tm|].
    2:{ repeat split. exists (fun _ => true). symmetry. apply forallb_filter_id.
        apply forallb_forall. reflexivity. }
    match goal with |- context [fireDue fuel t ?s2] => set (s2' := s2) end.
    destruct (IH s2') as (Hn & Hd & keep & Hk).
    assert (H2 : timers (host s2') =
                 List.filter (fun x => negb (t_id x =? t_id tm)%nat) (timers (host s)) /\
                 nextTimer (host s2') = nextTimer (host s) /\
                 searchDebounce s2' = searchDebounce s).
    { subst s2'. destruct (t_cb tm); repeat split. }
    destruct H2 as (Ht2 & Hn2 & Hd2).
    repeat split; [ congruence | congruence | ].
    exists (fun x => negb (t_id x =? t_id tm)%nat && keep x).
    rewrite Hk, Ht2. clear.
    induction (timers (host s)) as [|y l IHl]; simpl; [ reflexivity | ].
    destruct (negb (t_id y =? t_id tm)%nat); simpl; [ | exact IHl ].
    destruct (keep y); [ now rewrite IHl | exact IHl ].
Qed.

Lemma step_timers_ok s e : timers_ok s -> timers_ok (step s e).
Proof.
  intros Hs. destruct e as [ | | |p|v|v|j|n r|t]; simpl step.
  - exact Hs.
  - destruct Hs as [Hnd Hr]. unfold timers_ok, ready. simpl. split.
    + apply NoDup_ids_fresh; [ exact Hnd | ].
      intros y Hy. simpl. apply Hr, Hy.
    + intros tm [Htm|[<-|[]]]%in_app_or; simpl.
      * destruct (Hr tm Htm). split; [ lia | auto ].
      * split; [ lia | auto ].
  - exact Hs.
  - eapply timers_ok_from_obs; [ | exact Hs ].
    apply (preserves_exec timerObs). unfold onmessage, JSON_parse, destructure.
    repeat first
      [ match goal with
        | |- preserves _ (handleEvent ?e) =>
            destruct e as [ty J d ts]; unfold handleEvent;
            destruct (eventType ty); unfold_handlers; frame
        end
      | frame_step ].
    all: unfold_handlers; frame.
  - destruct Hs as [Hnd Hr]. split.
    + unfold exec, onSearchInput, on_dom, clearTimeout, setTimeout, on_host. simpl.
      destruct (searchDebounce s) as [old|]; simpl.
      * apply NoDup_ids_fresh; [ now apply NoDup_ids_filter | ].
        intros y Hy. apply filter_In in Hy as [Hy _]. simpl. apply Hr, Hy.
      * apply NoDup_ids_fresh; [ exact Hnd | ].
        intros y Hy. simpl. apply Hr, Hy.
    + eapply armed_ready. apply (onSearchInput_arms v s Hr).
  - eapply timers_ok_from_obs; [ | exact Hs ].
    apply (preserves_exec timerObs). unfold onSortChange. unfold_handlers. frame.
  - eapply timers_ok_from_obs; [ | exact Hs ].
    apply (preserves_exec timerObs). unfold toggleJob. unfold_handlers. frame.
  - eapply timers_ok_from_obs; [ | exact Hs ].
    unfold deliver. destruct (List.find _ _) as [[k req]|]; [ | reflexivity ].
    destruct req as [params|J]; destruct r; try reflexivity.
    unfold loadJobs_resume. rewrite exec_modify.
    rewrite (preserves_exec timerObs) by (unfold_handlers; frame). reflexivity.
  - destruct Hs as [Hnd Hr]. unfold advance.
    destruct (fireDue_timers (length (timers (host s))) t s) as (Hn & Hd & keep & Hk).
    split.
    + simpl. rewrite Hk. now apply NoDup_ids_filter.
    + intros tm Htm. simpl in Htm. rewrite Hk in Htm.
      apply filter_In in Htm as [Htm _]. simpl. rewrite Hn, Hd. apply Hr, Htm.
Qed.

(** X3.  In every state that the page reaches from its initial state,
    timer ids are distinct and at most one search timer is pending, which
    is the one that [searchDebounce] holds. *)
Theorem one_search_timer (l : list HostEvent) :
  let s := run initial l in
  timers_ok s /\
  forall tm1 tm2,
    In tm1 (timers (host s)) -> In tm2 (timers (host s)) ->
    t_cb tm1 = cb_loadJobs -> t_cb tm2 = cb_loadJobs ->
    tm1 = tm2 /\ searchDebounce s = Some (t_id tm1).
Proof.
  intros s.
  assert (Hok : timers_ok s).
  { apply run_maintains; [ apply step_timers_ok | ].
    split; [ constructor | intros tm [] ]. }
  split; [ exact Hok | ].
  destruct Hok as [Hnd Hr]. intros tm1 tm2 H1 H2 Hc1 Hc2.
  destruct (Hr tm1 H1) as (_ & [Hx|Hd1]); [ congruence | ].
  destruct (Hr tm2 H2) as (_ & [Hx|Hd2]); [ congruence | ].
  split; [ | exact Hd1 ].
  apply (NoDup_ids_inj _ _ _ Hnd H1 H2). congruence.
Qed.
Lemma existsb_eqb_In J (l : list string) :
  existsb (String.eqb J) l = true <-> In J l.
Proof.
  rewrite existsb_exists. split.
  - intros (x & Hx & Heq). apply String.eqb_eq in Heq. now subst.
  - intros H. exists J. split; [ exact H | apply String.eqb_refl ].
Qed.

Lemma fetchAndRenderDetail_sent J force s :
  sent (host (exec (fetchAndRenderDetail J force) s)) =
    (sent (host s) ++ detailRequest J force s)%list.
Proof.
  unfold fetchAndRenderDetail, detailRequest, exec. simpl.
  destruct (hasContainer J (dom s)); simpl; [ | now rewrite app_nil_r ].
  destruct (negb force && cached J (jobDetailCache s)); simpl;
    [ now rewrite app_nil_r | reflexivity ].
Qed.

Lemma renderGallery_sent (s : State) :
  sent (host (exec renderGallery s)) = (sent (host s) ++ galleryRequest s)%list.
Proof.
  unfold galleryRequest, catalogIds, renderGallery.
  change (sent (host (exec (match jobList s with
    | [] => on_dom (set_galleryCards [])
    | _ :: _ => on_dom (set_galleryCards (map job_id (jobList s))) ;;
        expanded <- gets expandedJobId ;;
        match truthy expanded with
        | Some id => fetchAndRenderDetail id false
        | None => ret tt
        end
    end) s)) = (sent (host s) ++
      match truthy (expandedJobId s) with
      | Some id =>
          if existsb (String.eqb id) (map job_id (jobList s)) then
            if cached id (jobDetailCache s) then []
            else [(clock (host s), nextReq (host s), GET_job id)]
          else []
      | None => []
      end)%list).
  destruct (jobList s) as [|j l] eqn:Hl.
  - simpl. destruct (truthy (expandedJobId s)); now rewrite app_nil_r.
  - unfold on_dom. rewrite exec_modify.
    change (exec (expanded <- gets expandedJobId ;;
                  match truthy expanded with
                  | Some id => fetchAndRenderDetail id false
                  | None => ret tt
                  end) ?s0)
      with (exec (match truthy (expandedJobId s0) with
                  | Some id => fetchAndRenderDetail id false
                  | None => ret tt
                  end) s0).
    simpl expandedJobId.
    destruct (truthy (expandedJobId s)) as [id|]; [ | simpl; now rewrite app_nil_r ].
    rewrite fetchAndRenderDetail_sent. reflexivity.
Qed.

Lemma truthy_id J : J <> "" -> truthy (Some J) = Some J.
Proof.
  intros H. simpl. destruct (J =? "") eqn:E; [ | reflexivity ].
  apply String.eqb_eq in E. contradiction.
Qed.

Lemma toggleJob_unfold J s :
  exec (toggleJob J) s =
    exec (if bool_decide (expandedJobId s = Some J)
          then modify (set_expandedJobId None) ;; renderGallery
          else modify (set_expandedJobId (Some J)) ;; renderGallery) s.
Proof. reflexivity. Qed.

(** Expanding the card of a listed job that was not the expanded one. *)
Lemma toggleJob_expands (s : State) (J : string) :
  In J (catalogIds s) -> J <> "" -> expandedJobId s <> Some J ->
  expandedJobId (exec (toggleJob J) s) = Some J /\
  sent (host (exec (toggleJob J) s)) =
    (sent (host s) ++
     if cached J (jobDetailCache s) then []
     else [(clock (host s), nextReq (host s), GET_job J)])%list.
Proof.
  intros Hin HJ Hex. rewrite toggleJob_unfold.
  rewrite bool_decide_eq_false_2 by exact Hex. rewrite exec_modify.
  split.
  - rewrite (preserves_exec expandedJobId) by (unfold_handlers; frame). reflexivity.
  - rewrite renderGallery_sent. unfold galleryRequest.
    simpl expandedJobId. rewrite (truthy_id J HJ).
    assert (He : existsb (String.eqb J)
              (catalogIds (set_expandedJobId (Some J) s)) = true)
      by (apply existsb_eqb_In; exact Hin).
    rewrite He. reflexivity.
Qed.

Lemma plain_nonempty J : plain J = true -> J <> "".
Proof. intros H ->. discriminate H. Qed.

Lemma plainCatalog_In s J : plainCatalog s -> In J (catalogIds s) -> J <> "".
Proof.
  unfold plainCatalog. rewrite List.Forall_forall. intros H Hin.
  apply plain_nonempty, H, Hin.
Qed.

(** X4.  In a gallery whose job ids are plain, and with no document
    stored under [__proto__], a click on the card of a listed job either
    collapses it, when it was the expanded one, and sends nothing; or
    expands it, and then sends one [GET /api/jobs/J] unless
    [jobDetailCache[J]] yields a value, be it a cached document or a
    property that the cache inherits from [Object.prototype], in which
    case it sends nothing. *)
Theorem card_click_requests (s : State) (J : string) :
  plainCatalog s -> cacheIntact s -> In J (catalogIds s) ->
  let s' := exec (toggleJob J) s in
  if bool_decide (expandedJobId s = Some J) then
    expandedJobId s' = None /\ sent (host s') = sent (host s)
  else
    expandedJobId s' = Some J /\
    sent (host s') =
      (sent (host s) ++
       if cached J (jobDetailCache s) then []
       else [(clock (host s), nextReq (host s), GET_job J)])%list.
Proof.
  intros Hp _ Hin s'. subst s'.
  destruct (bool_decide (expandedJobId s = Some J)) eqn:E.
  - rewrite toggleJob_unfold, E, exec_modify. split.
    + rewrite (preserves_exec expandedJobId) by (unfold_handlers; frame). reflexivity.
    + rewrite renderGallery_sent. unfold galleryRequest. simpl. apply app_nil_r.
  - apply toggleJob_expands;
      [ exact Hin | exact (plainCatalog_In s J Hp Hin) | ].
    now apply bool_decide_eq_false in E.
Qed.

Lemma card_click_requests_witness :
  let s := Scenario.loaded [Scenario.summary "abc123" "generating"] in
  let s' := exec (toggleJob "abc123") s in
  catalogIds s = ["abc123"] /\ plain "abc123" = true /\
  jobDetailCache s = ∅ /\
  expandedJobId s' = Some "abc123" /\
  sent (host s') =
    (sent (host s) ++ [(clock (host s), nextReq (host s), GET_job "abc123")])%list.
Proof.
  split; [ reflexivity | ]. split; [ reflexivity | ]. split; [ reflexivity | ].
  apply (card_click_requests
           (Scenario.loaded [Scenario.summary "abc123" "generating"]) "abc123");
    [ repeat constructor | reflexivity | left; reflexivity ].
Defined.

Lemma handleEvent_keeps_expanded e : preserves expandedJobId (handleEvent e).
Proof.
  destruct e as [ty J d ts]. unfold handleEvent.
  destruct (eventType ty); unfold_handlers; frame.
Qed.

(** X5.  In a gallery whose job ids are plain, and with no document
    stored under [__proto__], take an [image_generated],
    [variant_scored], [image_refined] or [job_completed] event for a
    listed job whose card is not expanded and whose id is not a name
    inherited from [Object.prototype].  A click on that card in the state
    that the event leaves (before any reply or other event) sends exactly
    one [GET /api/jobs/J], whatever was cached before the event. *)
Theorem invalidated_then_expanded (s : State) (e : Event) :
  eventType (type e) = image_generated \/ eventType (type e) = variant_scored \/
  eventType (type e) = image_refined \/ eventType (type e) = job_completed ->
  plainCatalog s -> cacheIntact s -> In (ev_job_id e) (catalogIds s) ->
  inherited (ev_job_id e) = false ->
  expandedJobId s <> Some (ev_job_id e) ->
  let s1 := exec (handleEvent e) s in
  let s2 := exec (toggleJob (ev_job_id e)) s1 in
  sent (host s2) =
    (sent (host s1) ++ [(clock (host s1), nextReq (host s1), GET_job (ev_job_id e))])%list.
Proof.
  intros Hty Hp _ Hin Hi Hex s1 s2.
  pose proof (plainCatalog_In s _ Hp Hin) as HJ.
  assert (Hin1 : In (ev_job_id e) (catalogIds s1)).
  { subst s1. destruct (handleEvent_ids e s) as [-> | (_ & _ & ->)];
      [ exact Hin | right; exact Hin ]. }
  assert (Hex1 : expandedJobId s1 = expandedJobId s)
    by apply handleEvent_keeps_expanded.
  destruct (toggleJob_expands s1 (ev_job_id e) Hin1 HJ) as [_ H];
    [ congruence | ].
  fold s2 in H. rewrite H.
  subst s1. rewrite cached_none by exact (handleEvent_invalidates e s Hty).
  rewrite Hi. reflexivity.
Qed.

Lemma invalidated_then_expanded_witness :
  let s := Scenario.loaded [Scenario.summary "abc123" "generating"] in
  let s1 := exec (handleEvent Scenario.scored) s in
  let s2 := exec (toggleJob "abc123") s1 in
  catalogIds s = ["abc123"] /\ plain "abc123" = true /\
  jobDetailCache s = ∅ /\
  inherited "abc123" = false /\ expandedJobId s = None /\
  sent (host s2) =
    (sent (host s1) ++ [(clock (host s1), nextReq (host s1), GET_job "abc123")])%list.
Proof.
  split; [ reflexivity | ]. split; [ reflexivity | ]. split; [ reflexivity | ].
  split; [ reflexivity | ]. split; [ reflexivity | ].
  apply (invalidated_then_expanded
           (Scenario.loaded [Scenario.summary "abc123" "generating"])
           Scenario.scored);
    [ right; left; reflexivity | repeat constructor | reflexivity
    | left; reflexivity | reflexivity | discriminate ].
Defined.

Lemma exec_then {S A} (c : JS S unit) (k : JS S A) s :
  never_throws c -> exec (c ;; k) s = exec k (exec c s).
Proof.
  intros Hc. destruct (Hc s) as [[] Ha]. unfold exec. simpl.
  destruct (c s) as [o s1]. simpl in Ha. now subst.
Qed.

Lemma renderGallery_never_throws : never_throws renderGallery.
Proof. unfold_handlers. total. Qed.

Lemma fetchAndRenderDetail_nextReq J force s :
  nextReq (host (exec (fetchAndRenderDetail J force) s)) =
    nextReq (host s) + length (detailRequest J force s).
Proof.
  unfold fetchAndRenderDetail, detailRequest, exec. simpl.
  destruct (hasContainer J (dom s)); simpl; [ | lia ].
  destruct (negb force && cached J (jobDetailCache s)); simpl; lia.
Qed.

Lemma renderGallery_nextReq s :
  nextReq (host (exec renderGallery s)) =
    nextReq (host s) + length (galleryRequest s).
Proof.
  pose proof (renderGallery_sent s) as Hs.
  unfold galleryRequest, catalogIds, renderGallery in *.
  change (nextReq (host (exec (match jobList s with
    | [] => on_dom (set_galleryCards [])
    | _ :: _ => on_dom (set_galleryCards (map job_id (jobList s))) ;;
        expanded <- gets expandedJobId ;;
        match truthy expanded with
        | Some id => fetchAndRenderDetail id false
        | None => ret tt
        end
    end) s)) = nextReq (host s) + length
      match truthy (expandedJobId s) with
      | Some id =>
          if existsb (String.eqb id) (map job_id (jobList s)) then
            if cached id (jobDetailCache s) then []
            else [(clock (host s), nextReq (host s), GET_job id)]
          else []
      | None => []
      end).
  destruct (jobList s) as [|j l] eqn:Hl.
  - simpl. destruct (truthy (expandedJobId s)); simpl; lia.
  - unfold on_dom. rewrite exec_modify.
    change (exec (expanded <- gets expandedJobId ;;
                  match truthy expanded with
                  | Some id => fetchAndRenderDetail id false
                  | None => ret tt
                  end) ?s0)
      with (exec (match truthy (expandedJobId s0) with
                  | Some id => fetchAndRenderDetail id false
                  | None => ret tt
                  end) s0).
    simpl expandedJobId.
    destruct (truthy (expandedJobId s)) as [id|]; [ | simpl; lia ].
    rewrite fetchAndRenderDetail_nextReq. reflexivity.
Qed.

(** X6.  In a gallery whose job ids are plain, and with no document
    stored under [__proto__], when [job_completed] arrives for the listed
    job whose card is expanded, and whose id is not a name inherited from
    [Object.prototype], the handler sends two identical detail requests
    in the same turn: one from the gallery redraw and one from its own
    call. *)
Theorem job_completed_fetches_twice (s : State) (e : Event) :
  eventType (type e) = job_completed ->
  expandedJobId s = Some (ev_job_id e) ->
  plainCatalog s -> cacheIntact s -> In (ev_job_id e) (catalogIds s) ->
  inherited (ev_job_id e) = false ->
  sent (host (exec (handleEvent e) s)) =
    (sent (host s) ++
     [(clock (host s), nextReq (host s), GET_job (ev_job_id e));
      (clock (host s), Datatypes.S (nextReq (host s)), GET_job (ev_job_id e))])%list.
Proof.
  destruct e as [ty J d ts]. cbn [type ev_job_id]. intros Hty Hex Hp _ Hin Hi.
  pose proof (plainCatalog_In s J Hp Hin) as HJ.
  unfold handleEvent. rewrite Hty.
  unfold updateJobStage, renderPipeline, on_dom, delete_detail.
  rewrite !exec_modify.
  match goal with |- context [exec _ ?s0] => set (s1 := s0) end.
  rewrite exec_then by apply renderGallery_never_throws.
  assert (Hmiss : cached J (jobDetailCache s1) = false).
  { subst s1. simpl jobDetailCache.
    rewrite cached_none by apply lookup_delete_eq. exact Hi. }
  assert (Hg : galleryRequest s1 = [(clock (host s), nextReq (host s), GET_job J)]).
  { unfold galleryRequest.
    assert (Hex1 : expandedJobId s1 = Some J) by exact Hex.
    assert (He : existsb (String.eqb J) (catalogIds s1) = true).
    { apply existsb_eqb_In. subst s1. unfold catalogIds. simpl jobList.
      rewrite ids_assign_first. exact Hin. }
    rewrite Hex1, (truthy_id J HJ), He, Hmiss. reflexivity. }
  set (s2 := exec renderGallery s1).
  assert (Hex2 : expandedJobId s2 = Some J).
  { subst s2. rewrite (preserves_exec expandedJobId) by (unfold_handlers; frame).
    exact Hex. }
  change (exec (expanded <- gets expandedJobId ;;
                when (bool_decide (expanded = Some J)) (fetchAndRenderDetail J false)) s2)
    with (exec (when (bool_decide (expandedJobId s2 = Some J))
                     (fetchAndRenderDetail J false)) s2).
  rewrite bool_decide_eq_true_2 by exact Hex2. simpl when.
  rewrite fetchAndRenderDetail_sent.
  assert (Hs2 : sent (host s2) =
                (sent (host s) ++ [(clock (host s), nextReq (host s), GET_job J)])%list).
  { subst s2. rewrite renderGallery_sent, Hg. reflexivity. }
  assert (Hn2 : nextReq (host s2) = Datatypes.S (nextReq (host s))).
  { subst s2. rewrite renderGallery_nextReq, Hg. simpl. subst s1. simpl. lia. }
  assert (Hc2 : clock (host s2) = clock (host s)).
  { subst s2. change (hostClock (exec renderGallery s1) = hostClock s).
    rewrite (preserves_exec hostClock) by (unfold_handlers; frame). reflexivity. }
  assert (Hcache2 : cached J (jobDetailCache s2) = false).
  { subst s2. rewrite (preserves_exec jobDetailCache) by (unfold_handlers; frame).
    exact Hmiss. }
  assert (Hcont2 : hasContainer J (dom s2) = true).
  { pose proof (renderGallery_syncs s1) as Hsync. fold s2 in Hsync.
    unfold hasContainer. rewrite Hsync. apply existsb_eqb_In.
    unfold catalogIds. subst s2.
    rewrite (preserves_exec jobList) by apply renderGallery_keeps_jobList.
    subst s1. simpl. rewrite ids_assign_first. exact Hin. }
  unfold detailRequest. rewrite Hcont2, Hcache2, Hs2, Hn2, Hc2.
  rewrite <- app_assoc. reflexivity.
Qed.

Lemma job_completed_fetches_twice_witness :
  let s := Scenario.expanded [Scenario.summary "abc123" "generating"]
                             Scenario.old_doc in
  expandedJobId s = Some "abc123" /\ catalogIds s = ["abc123"] /\
  plain "abc123" = true /\ inherited "abc123" = false /\
  jobDetailCache s !! "__proto__" = None /\
  sent (host (exec (handleEvent Scenario.completed) s)) =
    (sent (host s) ++
     [(clock (host s), nextReq (host s), GET_job "abc123");
      (clock (host s), Datatypes.S (nextReq (host s)), GET_job "abc123")])%list.
Proof.
  split; [ reflexivity | ]. split; [ reflexivity | ].
  split; [ reflexivity | ]. split; [ reflexivity | ]. split; [ reflexivity | ].
  apply (job_completed_fetches_twice
           (Scenario.expanded [Scenario.summary "abc123" "generating"]
                              Scenario.old_doc)
           Scenario.completed);
    [ reflexivity | reflexivity | repeat constructor | reflexivity
    | left; reflexivity | reflexivity ].
Defined.



(** X8.  Once the reply to a detail request has arrived, its document is
    cached and expanding the card of that job sends no further request; a
    failed reply leaves the cache as it was. *)
Theorem fetched_detail_is_served (s : State) (n : nat) (J : string) (d : Detail) :
  pending n s = Some (n, GET_job J) ->
  In J (catalogIds s) -> J <> "" -> expandedJobId s <> Some J ->
  let s1 := deliver n (job_reply d) s in
  jobDetailCache s1 !! J = Some d /\
  sent (host s1) = sent (host s) /\
  sent (host (exec (toggleJob J) s1)) = sent (host s) /\
  jobDetailCache (deliver n failed_reply s) = jobDetailCache s.
Proof.
  intros Hp Hin HJ Hex s1. unfold pending in Hp.
  assert (Hs1 : s1 = set_jobDetailCache (<[J := d]> (jobDetailCache s))
                       (set_state_host (drop_inflight n (host s)) s)).
  { subst s1. unfold deliver. rewrite Hp. reflexivity. }
  assert (Hc : jobDetailCache s1 !! J = Some d)
    by (rewrite Hs1; apply lookup_insert_eq).
  split; [ exact Hc | ].
  split; [ rewrite Hs1; reflexivity | ].
  split.
  - destruct (toggleJob_expands s1 J) as [_ H];
      [ rewrite Hs1; exact Hin | exact HJ | rewrite Hs1; exact Hex | ].
    rewrite H, (cached_own _ _ _ Hc), app_nil_r. rewrite Hs1. reflexivity.
  - unfold deliver. rewrite Hp. reflexivity.
Qed.

Lemma fetched_detail_is_served_witness :
  let s := run (Scenario.loaded [Scenario.summary "abc123" "generating"])
               [card_click "abc123"; card_click "abc123"] in
  let s1 := deliver 1 (job_reply Scenario.old_doc) s in
  pending 1 s = Some (1, GET_job "abc123") /\
  expandedJobId s = None /\
  jobDetailCache s1 !! "abc123" = Some Scenario.old_doc /\
  sent (host s1) = sent (host s) /\
  sent (host (exec (toggleJob "abc123") s1)) = sent (host s) /\
  jobDetailCache (deliver 1 failed_reply s) = jobDetailCache s.
Proof.
  split; [ reflexivity | ]. split; [ reflexivity | ].
  apply (fetched_detail_is_served
           (run (Scenario.loaded [Scenario.summary "abc123" "generating"])
                [card_click "abc123"; card_click "abc123"])
           1 "abc123" Scenario.old_doc);
    [ reflexivity | left; reflexivity | discriminate | discriminate ].
Defined.

(** X9.  With no timer pending, a close of the socket shows the
    disconnected status and sets one reconnect timer: before 3000ms have
    passed the socket stays closed and the timer pending; once they have,
    [connect] has run exactly once (the socket is connecting) and no
    timer is left. *)
Theorem reconnects_after_3s (s : State) (T : nat) :
  timers (host s) = [] ->
  let s1 := step s ws_close in
  let s2 := step s1 (elapse T) in
  ws s1 = CLOSED /\ statusText (dom s1) = "Frånkopplad" /\
  if (clock (host s) + 3000 <=? T)%nat
  then ws s2 = CONNECTING /\ timers (host s2) = []
  else ws s2 = CLOSED /\
       timers (host s2) =
         [mkTimer (nextTimer (host s)) (clock (host s) + 3000) cb_connect].
Proof.
  intros Ht s1 s2. subst s2 s1. unfold step, advance, exec, onclose, on_dom,
    setTimeout, on_host. simpl. rewrite Ht. simpl.
  destruct (clock (host s) + 3000 <=? T)%nat eqn:E; simpl.
  - rewrite Nat.eqb_refl. simpl. auto.
  - auto.
Qed.

Lemma reconnects_after_3s_witness :
  let s1 := step initial ws_close in
  ws s1 = CLOSED /\ statusText (dom s1) = "Frånkopplad" /\
  ws (step s1 (elapse 2999)) = CLOSED /\
  timers (host (step s1 (elapse 2999))) = [mkTimer 1 3000 cb_connect] /\
  ws (step s1 (elapse 3000)) = CONNECTING /\
  timers (host (step s1 (elapse 3000))) = [].
Proof.
  destruct (reconnects_after_3s initial 2999 eq_refl) as (H1 & H2 & H3 & H4).
  destruct (reconnects_after_3s initial 3000 eq_refl) as (_ & _ & H5 & H6).
  exact (conj H1 (conj H2 (conj H3 (conj H4 (conj H5 H6))))).
Defined.

Lemma slice_last_length {A} n (l : list A) :
  length (slice_last n l) = Nat.min n (length l).
Proof. unfold slice_last. rewrite length_skipn. lia. Qed.

Lemma slice_last_snoc {A} n (l : list A) x :
  slice_last (Datatypes.S n) (l ++ [x]) = (slice_last n l ++ [x])%list.
Proof.
  unfold slice_last. rewrite length_app. simpl.
  replace (length l + 1 - Datatypes.S n) with (length l - n) by lia.
  rewrite skipn_app.
  replace (length l - n - length l) with 0 by lia. reflexivity.
Qed.

(** X10.  An [agent_message] or [progress] event with its data appends
    one entry to the agent log; the rendered log then shows that entry
    last, after at most 29 earlier ones, so never more than 30. *)
Theorem log_view_shows_latest (s : State) (e : Event) (d : EventData) :
  eventType (type e) = agent_message \/ eventType (type e) = progress ->
  data e = Some d ->
  let s' := exec (handleEvent e) s in
  let entry := mkLog (d_agent d) (d_message d) (timestamp e) in
  agentLog s' = (agentLog s ++ [entry])%list /\
  agentLogView (dom s') = (slice_last 29 (agentLog s) ++ [entry])%list /\
  length (agentLogView (dom s')) <= 30.
Proof.
  destruct e as [ty J dd ts]. cbn [type ev_job_id data timestamp].
  intros Hty ->.
  assert (H : exec (handleEvent (mkEvent ty J (Some d) ts)) s =
    set_dom (set_agentLogView
               (slice_last 30 (agentLog s ++ [mkLog (d_agent d) (d_message d) ts]))
               (dom s))
      (set_agentLog (agentLog s ++ [mkLog (d_agent d) (d_message d) ts]) s)).
  { unfold handleEvent. destruct Hty as [Hty|Hty]; rewrite Hty; reflexivity. }
  rewrite H. simpl. rewrite slice_last_snoc. repeat split.
  rewrite length_app, slice_last_length. cbn [length]. lia.
Qed.

Lemma log_view_shows_latest_witness :
  let s' := exec (handleEvent Scenario.said) initial in
  let entry := mkLog (Some "critic") (Some "scoring") Scenario.now in
  agentLog s' = [entry] /\ agentLogView (dom s') = [entry] /\
  length (agentLogView (dom s')) <= 30.
Proof.
  apply (log_view_shows_latest initial Scenario.said
           (Scenario.with_message "critic" "scoring"));
    [ left; reflexivity | reflexivity ].
Defined.

Lemma renderGallery_keeps_agentLog : preserves agentLog renderGallery.
Proof. unfold_handlers. frame. Qed.

(** X11.  No event other than [job_started] removes or changes an entry
    of the agent log: the log after the event is the log before it,
    followed by at most one new entry. *)
Theorem log_only_cleared_by_job_started (s : State) (e : Event) :
  eventType (type e) <> job_started ->
  exists more,
    agentLog (exec (handleEvent e) s) = (agentLog s ++ more)%list /\
    length more <= 1.
Proof.
  destruct e as [ty J d ts]. cbn [type]. intros Hty.
  unfold handleEvent.
  destruct (eventType ty) eqn:E; try contradiction.
  - exists []. rewrite app_nil_r. split; [ | simpl; lia ].
    apply (preserves_exec agentLog). unfold_handlers. frame.
  - destruct d as [d|]; [ eexists [_] | exists [] ]; split; try (simpl; lia);
      [ reflexivity | now rewrite app_nil_r ].
  - destruct d as [d|]; [ eexists [_] | exists [] ]; split; try (simpl; lia);
      [ reflexivity | now rewrite app_nil_r ].
  - exists []. rewrite app_nil_r. split; [ reflexivity | simpl; lia ].
  - exists []. rewrite app_nil_r. split; [ reflexivity | simpl; lia ].
  - unfold delete_detail. rewrite exec_modify.
    change (exec (expanded <- gets expandedJobId ;;
                  when (bool_decide (expanded = Some J)) (fetchAndRenderDetail J true) ;;
                  ?k) ?s0)
      with (exec (when (bool_decide (expandedJobId s0 = Some J))
                       (fetchAndRenderDetail J true) ;; k) s0).
    match goal with |- context [exec _ ?s0] => set (s1 := s0) end.
    rewrite exec_then by (apply never_throws_when, never_throws_async).
    set (s2 := exec _ s1).
    assert (H2 : agentLog s2 = agentLog s).
    { subst s2. rewrite (preserves_exec agentLog) by (unfold_handlers; frame).
      reflexivity. }
    destruct d as [d|]; [ eexists [_] | exists [] ]; split; try (simpl; lia).
    + unfold exec, agentLog_push, renderAgentLog, on_dom. simpl. now rewrite H2.
    + rewrite app_nil_r. exact H2.
  - exists []. rewrite app_nil_r. split; [ | simpl; lia ].
    apply (preserves_exec agentLog). unfold_handlers. frame.
  - unfold updateJobStage, renderPipeline, on_dom. rewrite !exec_modify.
    destruct d as [d|]; [ eexists [_] | exists [] ]; split; try (simpl; lia).
    + unfold exec, agentLog_push, renderAgentLog, on_dom. simpl.
      etransitivity; [ exact (renderGallery_keeps_agentLog _) | reflexivity ].
    + now rewrite app_nil_r.
  - exists []. rewrite app_nil_r. split; [ reflexivity | simpl; lia ].
Qed.

Lemma log_only_cleared_by_job_started_witness :
  eventType (type Scenario.failed) = job_failed /\
  exists more,
    agentLog (exec (handleEvent Scenario.failed)
                   (exec (handleEvent Scenario.said) initial)) =
      (agentLog (exec (handleEvent Scenario.said) initial) ++ more)%list /\
    length more <= 1.
Proof.
  split; [ reflexivity | ].
  apply (log_only_cleared_by_job_started
           (exec (handleEvent Scenario.said) initial) Scenario.failed).
  discriminate.
Defined.

(** X12.  A [job_started] event, with or without data and whether or not
    the job is listed, makes its job the tracked one, empties the agent
    log and shows the first stage active; it does not redraw the log
    view, which keeps showing what it showed. *)
Theorem job_started_tracks_and_clears (s : State) (e : Event) :
  eventType (type e) = job_started ->
  let s' := exec (handleEvent e) s in
  currentJobId s' = Some (ev_job_id e) /\
  agentLog s' = [] /\
  agentLogView (dom s') = agentLogView (dom s) /\
  iconClasses (stagesView (dom s')) = ["active"; "pending"; "pending"; "pending"].
Proof.
  destruct e as [ty J d ts]. cbn [type ev_job_id]. intros Hty.
  unfold handleEvent. rewrite Hty.
  unfold showPipelineCards, renderPipeline, on_dom.
  rewrite !exec_modify.
  match goal with |- context [exec ?c ?s0] => set (s1 := s0); set (rest := c) end.
  assert (Hrest : preserves
            (fun s => (currentJobId s, agentLog s, agentLogView (dom s),
                       stagesView (dom s))) rest).
  { subst rest. unfold_handlers. frame. }
  specialize (Hrest s1). simpl in Hrest.
  injection Hrest as -> -> -> ->. repeat split.
Qed.

Lemma job_started_tracks_and_clears_witness :
  let s := exec (handleEvent Scenario.said) initial in
  let s' := exec (handleEvent Scenario.started) s in
  agentLog s <> [] /\
  currentJobId s' = Some "abc123" /\
  agentLog s' = [] /\
  agentLogView (dom s') = agentLogView (dom s) /\
  iconClasses (stagesView (dom s')) = ["active"; "pending"; "pending"; "pending"].
Proof.
  split; [ discriminate | ].
  apply (job_started_tracks_and_clears
           (exec (handleEvent Scenario.said) initial) Scenario.started).
  reflexivity.
Defined.

(** X13.  Push events never change which card is expanded, the content
    of the search box, the sort key, the pending search timer, the socket
    or the timers; and only [job_started] changes the tracked job. *)
Theorem events_leave_user_view (s : State) (e : Event) :
  userView (exec (handleEvent e) s) = userView s /\
  connection (exec (handleEvent e) s) = connection s /\
  (eventType (type e) <> job_started ->
   currentJobId (exec (handleEvent e) s) = currentJobId s).
Proof.
  split; [ | split ].
  - apply (preserves_exec userView). destruct e as [ty J d ts]. unfold handleEvent.
    destruct (eventType ty); unfold_handlers; frame.
  - apply handleEvent_keeps_connection.
  - intros Hty. apply (preserves_exec currentJobId).
    destruct e as [ty J d ts]. cbn [type] in Hty. unfold handleEvent.
    destruct (eventType ty); try contradiction; unfold_handlers; frame.
Qed.

Lemma blank_trim v : blank v = true -> trim v = "".
Proof.
  unfold trim. induction v as [|c r IH]; simpl; [ reflexivity | ].
  destruct (is_space c); simpl; [ exact IH | discriminate ].
Qed.

(** X14.  When the search box holds only white space, [loadJobs] sends
    the catalog query without a search parameter. *)
Theorem blank_search_sends_no_search (s : State) :
  blank (searchInput (dom s)) = true ->
  sent (host (exec loadJobs s)) =
    (sent (host s) ++
     [(clock (host s), nextReq (host s),
       GET_jobs (param "sort" (sortSelect (dom s))))])%list.
Proof.
  intros Hb. unfold exec, loadJobs, fetch, on_host. simpl.
  rewrite (blank_trim _ Hb). reflexivity.
Qed.

Lemma blank_search_sends_no_search_witness :
  let s := run initial [sort_change "newest"; search_input "  "] in
  searchInput (dom s) = "  " /\
  sent (host (exec loadJobs s)) =
    (sent (host s) ++
     [(clock (host s), nextReq (host s), GET_jobs [("sort", "newest")])])%list.
Proof.
  split; [ reflexivity | ].
  apply (blank_search_sends_no_search
           (run initial [sort_change "newest"; search_input "  "])).
  reflexivity.
Defined.

(** X15.  For each of the four stages of [STAGES] the pipeline shows the
    earlier stages done, that stage active (icon and label) and the later
    ones pending; for a stage that is none of them nor "complete" (such
    as "queued") it shows every stage pending and no label active; for
    "complete" every stage done and no label active. *)
Theorem pipeline_marks :
  (forall k sd, STAGES !! k = Some sd ->
     iconClasses (pipelineHTML (Some (key sd))) =
       (replicate k "done" ++ ["active"] ++ replicate (3 - k) "pending")%list /\
     map labelClass (pipelineHTML (Some (key sd))) =
       (replicate k "" ++ ["active"] ++ replicate (3 - k) "")%list) /\
  (forall currentStage,
     (forall sd, In sd STAGES -> is_str currentStage (key sd) = false) ->
     is_str currentStage "complete" = false ->
     iconClasses (pipelineHTML currentStage) =
       ["pending"; "pending"; "pending"; "pending"] /\
     map labelClass (pipelineHTML currentStage) = [""; ""; ""; ""]) /\
  iconClasses (pipelineHTML (Some "complete")) = ["done"; "done"; "done"; "done"] /\
  map labelClass (pipelineHTML (Some "complete")) = [""; ""; ""; ""].
Proof.
  split; [ | split; [ | split; reflexivity ] ].
  - intros k sd Hk.
    do 4 (destruct k as [|k]; [ inversion Hk; subst; split; reflexivity | ]).
    discriminate Hk.
  - intros cs Hk Hc. unfold pipelineHTML, iconClasses.
    assert (H1 := Hk _ (or_introl eq_refl)).
    assert (H2 := Hk _ (or_intror (or_introl eq_refl))).
    assert (H3 := Hk _ (or_intror (or_intror (or_introl eq_refl)))).
    assert (H4 := Hk _ (or_intror (or_intror (or_intror (or_introl eq_refl))))).
    simpl in H1, H2, H3, H4.
    unfold STAGES. cbn [findIndex key]. rewrite H1, H2, H3, H4, Hc.
    destruct (is_str cs "failed"); split; reflexivity.
Qed.
End DashboardMore.

(** ** The generate form *)

Section FormFacts.
Import Dashboard Form.

Lemma splice1_sub {A} (P : A -> Prop) i (l : list A) :
  Forall P l -> Forall P (splice1 i l).
Proof.
  intros H. unfold splice1. apply Forall_app. split.
  - apply Forall_take, H.
  - apply Forall_drop, H.
Qed.

Lemma act_keeps_staging p a :
  staged_images p /\ previews_in_sync p ->
  staged_images (act p a) /\ previews_in_sync (act p a).
Proof.
  unfold staged_images, previews_in_sync. intros [Hs Hp].
  destruct a as [l|i| |r]; simpl.
  - split; [ | reflexivity ].
    apply Forall_app. split; [ exact Hs | ].
    apply Forall_forall. intros f Hf%list_elem_of_In%filter_In. tauto.
  - split; [ | reflexivity ]. now apply splice1_sub.
  - unfold exec, onSubmit. simpl.
    destruct (trim (promptInput (controls p)) =? ""); simpl; auto.
  - destruct r; simpl; auto.
Qed.

(** X16.  Whatever files are added or removed and whatever is submitted
    and answered, every staged file has an image content type, and the
    previews show exactly the staged files, in order. *)
Theorem staged_files_are_images (l : list FormAction) :
  staged_images (perform page0 l) /\ previews_in_sync (perform page0 l).
Proof.
  assert (H : forall p, staged_images p /\ previews_in_sync p ->
                        staged_images (perform p l) /\ previews_in_sync (perform p l)).
  { induction l as [|a l IH]; intros p Hp; simpl; [ exact Hp | ].
    apply IH, act_keeps_staging, Hp. }
  apply H. split; [ constructor | reflexivity ].
Qed.

Lemma trim_blank v : trim v = "" <-> blank v = true.
Proof.
  split; [ | apply blank_trim ].
  unfold trim. induction v as [|c r IH]; simpl; [ reflexivity | ].
  destruct (is_space c) eqn:Ec; simpl; [ exact IH | ].
  destruct (trimEnd r); [ rewrite Ec | ]; discriminate.
Qed.

(** X18.  A submit with a blank prompt changes nothing and posts nothing.
    Otherwise it posts one body holding the trimmed prompt, the aspect
    ratio, the resolution and one part per staged file in order, disables
    the button with the text "Skickar...", and leaves the dashboard, the
    prompt box, the staged files and the alerts as they were. *)
Theorem submit_posts_unless_blank (p : Page) :
  let p' := exec onSubmit p in
  if blank (promptInput (controls p)) then p' = p
  else
    app p' = app p /\
    posted (controls p') =
      (posted (controls p) ++
       [[("prompt", text_part (trim (promptInput (controls p))));
         ("aspect_ratio", text_part (aspectSelect (controls p)));
         ("resolution", text_part (resolutionSelect (controls p)))] ++
        map (fun f => ("files", file_part f)) (uploadedFiles (controls p))])%list /\
    submitDisabled (controls p') = true /\
    submitText (controls p') = "Skickar..." /\
    promptInput (controls p') = promptInput (controls p) /\
    uploadedFiles (controls p') = uploadedFiles (controls p) /\
    alerts (controls p') = alerts (controls p).
Proof.
  simpl. unfold exec, onSubmit. simpl.
  destruct (blank (promptInput (controls p))) eqn:Eb.
  - rewrite (blank_trim _ Eb). simpl. destruct p; reflexivity.
  - destruct (trim (promptInput (controls p)) =? "") eqn:Et.
    + apply String.eqb_eq, trim_blank in Et. congruence.
    + simpl. repeat split.
Qed.

(** X19.  When the reply to a submit is a success, the returned job
    becomes the tracked one, the agent log and its view are emptied, the
    pipeline shows every stage pending, the prompt box and the staged
    files are cleared and the button is enabled again; the catalog and
    the detail cache are not touched. *)
Theorem accepted_submit_resets (p : Page) (job_id : option string) :
  let p' := exec (onSubmit_resume (generated job_id)) p in
  currentJobId (app p') = job_id /\
  agentLog (app p') = [] /\ agentLogView (dom (app p')) = [] /\
  iconClasses (stagesView (dom (app p'))) =
    ["pending"; "pending"; "pending"; "pending"] /\
  jobList (app p') = jobList (app p) /\
  jobDetailCache (app p') = jobDetailCache (app p) /\
  promptInput (controls p') = "" /\
  uploadedFiles (controls p') = [] /\ filePreviews (controls p') = [] /\
  submitDisabled (controls p') = false /\
  submitText (controls p') = "Generera 6 varianter" /\
  alerts (controls p') = alerts (controls p).
Proof. simpl. repeat split. Qed.

(** X20.  When the reply to a submit is not a success, the dashboard, the
    prompt box, the staged files and their previews stay as they were,
    the button is enabled again, and one alert is shown: the server's
    detail, else its error, else "Okänt fel", or the exception message
    after "Nätverksfel: ". *)
Theorem failed_submit_keeps_input (p : Page) (r : GenerateReply) :
  (forall job_id, r <> generated job_id) ->
  let p' := exec (onSubmit_resume r) p in
  app p' = app p /\
  promptInput (controls p') = promptInput (controls p) /\
  uploadedFiles (controls p') = uploadedFiles (controls p) /\
  filePreviews (controls p') = filePreviews (controls p) /\
  submitDisabled (controls p') = false /\
  submitText (controls p') = "Generera 6 varianter" /\
  alerts (controls p') = (alerts (controls p) ++ [failureText r])%list.
Proof.
  intros Hr. destruct r as [j| |]; [ destruct (Hr j); reflexivity | | ];
    simpl; repeat split.
Qed.

Lemma failed_submit_keeps_input_witness :
  let p := exec onSubmit
             (exec (addFiles [Scenario.photo])
                   (mkPage initial (set_promptInput "a red bicycle" controls0))) in
  let p' := exec (onSubmit_resume (refused None (Some "quota exceeded"))) p in
  app p' = app p /\
  promptInput (controls p') = "a red bicycle" /\
  uploadedFiles (controls p') = [Scenario.photo] /\
  filePreviews (controls p') = filePreviews (controls p) /\
  submitDisabled (controls p') = false /\
  submitText (controls p') = "Generera 6 varianter" /\
  alerts (controls p') = ["Fel: quota exceeded"].
Proof.
  apply (failed_submit_keeps_input
           (exec onSubmit
              (exec (addFiles [Scenario.photo])
                    (mkPage initial (set_promptInput "a red bicycle" controls0))))
           (refused None (Some "quota exceeded"))).
  intros job_id. discriminate.
Defined.

(** X17.  [removeFile(index)] with an index inside the staging list
    removes exactly that file and keeps the others in order; with an
    index at or past the end it removes nothing; a negative index counts
    from the end, and one below minus the length removes the first
    file. *)
Theorem removeFile_bounds (p : Page) (index : Z) :
  let l := uploadedFiles (controls p) in
  let l' := uploadedFiles (controls (exec (removeFile index) p)) in
  let len := Z.of_nat (length l) in
  ((0 <= index < len)%Z ->
     length l' + 1 = length l /\
     forall k, l' !! k =
       if (k <? Z.to_nat index)%nat then l !! k else l !! Datatypes.S k) /\
  ((len <= index)%Z -> l' = l) /\
  ((- len <= index < 0)%Z ->
     l' = uploadedFiles (controls (exec (removeFile (len + index)) p))) /\
  ((index < - len)%Z ->
     l' = uploadedFiles (controls (exec (removeFile 0) p))).
Proof.
  simpl. unfold splice1.
  set (l := uploadedFiles (controls p)).
  repeat split.
  - destruct H as [H0 H1].
    destruct (index <? 0)%Z eqn:E; [ apply Z.ltb_lt in E; lia | ].
    rewrite Z.min_l by lia.
    rewrite length_app, length_firstn, length_skipn. lia.
  - intros k. destruct H as [H0 H1].
    destruct (index <? 0)%Z eqn:E; [ apply Z.ltb_lt in E; lia | ].
    rewrite Z.min_l by lia.
    assert (Hn : Z.to_nat index < length l) by lia.
    destruct (k <? Z.to_nat index)%nat eqn:Ek.
    + apply Nat.ltb_lt in Ek.
      rewrite lookup_app_l by (rewrite length_take; lia).
      apply lookup_take_lt. lia.
    + apply Nat.ltb_ge in Ek.
      rewrite lookup_app_r by (rewrite length_take; lia).
      rewrite length_take, lookup_drop. f_equal. lia.
  - intros H.
    destruct (index <? 0)%Z eqn:E; [ apply Z.ltb_lt in E; lia | ].
    rewrite Z.min_r by lia. rewrite Nat2Z.id.
    rewrite firstn_all. rewrite skipn_all2 by lia. apply app_nil_r.
  - intros H.
    destruct (index <? 0)%Z eqn:E; [ | apply Z.ltb_ge in E; lia ].
    destruct (Z.of_nat (length l) + index <? 0)%Z eqn:E2;
      [ apply Z.ltb_lt in E2; lia | ].
    rewrite Z.max_l by lia. rewrite Z.min_l by lia. reflexivity.
  - intros H.
    destruct (index <? 0)%Z eqn:E; [ | apply Z.ltb_ge in E; lia ].
    rewrite Z.max_r by lia. simpl. rewrite Z.min_l by lia. reflexivity.
Qed.
End FormFacts.

(** ** More on the first dashboard *)

Section Maintains.
Context {S : Type} (Q : S -> Prop).

Lemma maintains_ret {A} (a : A) : maintains Q (ret a).
Proof. intros s H. exact H. Qed.

Lemma maintains_throw {A} e : maintains Q (@throw S A e).
Proof. intros s H. exact H. Qed.

Lemma maintains_gets {A} (f : S -> A) : maintains Q (gets f).
Proof. intros s H. exact H. Qed.

Lemma maintains_modify (f : S -> S) :
  (forall s, Q s -> Q (f s)) -> maintains Q (modify f).
Proof. intros Hf s H. apply Hf, H. Qed.

Lemma maintains_bind {A B} (c : JS S A) (k : A -> JS S B) :
  maintains Q c -> (forall a, maintains Q (k a)) -> maintains Q (bind c k).
Proof.
  intros Hc Hk s H. specialize (Hc s H). unfold exec in *. simpl.
  destruct (c s) as [[a|e] s1]; simpl in *; [ apply Hk, Hc | exact Hc ].
Qed.

Lemma maintains_async (c : JS S unit) : maintains Q c -> maintains Q (async c).
Proof. intros Hc s H. apply Hc, H. Qed.

Lemma maintains_prop {A} d (p : EventData -> A) : maintains Q (prop d p).
Proof. destruct d; intros s H; exact H. Qed.
End Maintains.

Ltac maintain_step :=
  lazymatch goal with
  | |- maintains _ (bind _ _) => apply maintains_bind; [ | intros ? ]
  | |- maintains _ (async _) => apply maintains_async
  | |- maintains _ (modify _) => apply maintains_modify
  | |- maintains _ (ret _) => apply maintains_ret
  | |- maintains _ (throw _) => apply maintains_throw
  | |- maintains _ (gets _) => apply maintains_gets
  | |- maintains _ (prop _ _) => apply maintains_prop
  | |- maintains _ (match ?x with _ => _ end) => destruct x
  end.

Section LegacyMore.
Import Legacy.

Ltac unfold_legacy :=
  unfold the_job, on_job, renderPipeline, addAgentLogEntry, renderAgentLog,
    renderImages, clearImages, renderJobList, on_dom,
    fetch, setTimeout, clearTimeout, console_error, on_host.

Lemma mapM_maintains (Q : State -> Prop) {A B} (f : A -> JS State B) l :
  (forall a, maintains Q (f a)) -> maintains Q (mapM f l).
Proof.
  intros Hf. induction l as [|a l IH]; simpl mapM.
  - apply maintains_ret.
  - apply maintains_bind; [ apply Hf | intros b ].
    apply maintains_bind; [ exact IH | intros bs; apply maintains_ret ].
Qed.

Lemma handleEvent_keeps_job K e :
  maintains (fun s => is_Some (jobs s !! K)) (handleEvent e).
Proof.
  destruct e as [ty J d ts]. unfold handleEvent, trackJob, dispatch.
  cbn [ev_job_id data].
  destruct (eventType ty); unfold_legacy;
    repeat first [ apply mapM_maintains; intros ?; unfold renderImageCard
                 | maintain_step ].
  all: intros s H; simpl; try exact H.
  all: try (apply lookup_alter_is_Some; exact H).
  all: try (apply lookup_insert_is_Some'; right; exact H).
Qed.

(** X21.  In the first dashboard no push event removes a job from
    [jobs]: a job that is stored stays stored through any sequence of
    events. *)
Theorem jobs_are_never_removed (s : State) (evs : list Event) (K : string) :
  is_Some (jobs s !! K) -> is_Some (jobs (route s evs) !! K).
Proof.
  revert s. induction evs as [|e evs IH]; intros s H; simpl; [ exact H | ].
  apply IH. apply (handleEvent_keeps_job K e s H).
Qed.

Lemma jobs_are_never_removed_witness :
  let s := exec (handleEvent Scenario.started) initial in
  is_Some (jobs s !! "abc123") /\
  is_Some (jobs (route s [Scenario.pictured; Scenario.failed; Scenario.pinged])
             !! "abc123").
Proof.
  split; [ eexists; reflexivity | ].
  apply (jobs_are_never_removed (exec (handleEvent Scenario.started) initial)).
  eexists; reflexivity.
Defined.

Ltac lookups :=
  repeat (rewrite ?lookup_alter_eq, ?lookup_insert_eq; simpl).

Lemma exec_gets {S A B} (f : S -> A) (k : A -> JS S B) s :
  exec (bind (gets f) k) s = exec (k (f s)) s.
Proof. reflexivity. Qed.

Lemma selectJob_log J job s :
  jobs s !! J = Some job -> agentLog (exec (selectJob J) s) = job_agentLog job.
Proof.
  intros Hj. unfold selectJob. rewrite exec_modify, exec_gets.
  cbn beta. cbn [jobs set_currentJobId]. rewrite Hj. rewrite exec_modify.
  rewrite (preserves_exec agentLog).
  - reflexivity.
  - unfold_legacy.
    repeat first [ apply mapM_preserves; intros ?; unfold renderImageCard
                 | frame_step ].
Qed.

(** X22.  In the first dashboard, for a job id that is not a name
    inherited from [Object.prototype] and with nothing stored under
    [__proto__], an [agent_message] is appended to
    the shown log and to the log of its job, a [progress] message to the
    shown log only: selecting the job afterwards shows the job's own log,
    which ends with the agent message in the first case and no longer
    holds the progress message in the second. *)
Theorem select_shows_only_agent_messages (s : State) (e : Event) (d : EventData) :
  data e = Some d ->
  inherited (ev_job_id e) = false -> storeIntact s ->
  let J := ev_job_id e in
  let entry := mkLog (d_agent d) (d_message d) (timestamp e) in
  let s1 := exec (handleEvent e) s in
  (eventType (type e) = agent_message ->
     agentLog s1 = (agentLog s ++ [entry])%list /\
     agentLog (exec (selectJob J) s1) = (ownLog J s ++ [entry])%list) /\
  (eventType (type e) = progress ->
     agentLog s1 = (agentLog s ++ [entry])%list /\
     agentLog (exec (selectJob J) s1) = ownLog J s).
Proof.
  destruct e as [ty J dd ts]. cbn [type ev_job_id data timestamp].
  intros -> _ _. unfold ownLog.
  split; intros Hty.
  - assert (H : agentLog (exec (handleEvent (mkEvent ty J (Some d) ts)) s) =
                  (agentLog s ++ [mkLog (d_agent d) (d_message d) ts])%list /\
                jobs (exec (handleEvent (mkEvent ty J (Some d) ts)) s) !! J =
                  Some (push_log (mkLog (d_agent d) (d_message d) ts)
                          (default (newJob J (d_prompt d)) (jobs s !! J)))).
    { unfold exec, handleEvent, trackJob, dispatch. cbn [ev_job_id data].
      rewrite Hty. unfold_legacy. simpl.
      destruct (jobs s !! J) as [j|] eqn:Hj; simpl; lookups; rewrite ?Hj; auto. }
    destruct H as [H1 H2]. split; [ exact H1 | ].
    rewrite (selectJob_log _ _ _ H2).
    destruct (jobs s !! J); reflexivity.
  - assert (H : agentLog (exec (handleEvent (mkEvent ty J (Some d) ts)) s) =
                  (agentLog s ++ [mkLog (d_agent d) (d_message d) ts])%list /\
                jobs (exec (handleEvent (mkEvent ty J (Some d) ts)) s) !! J =
                  Some (default (newJob J (d_prompt d)) (jobs s !! J))).
    { unfold exec, handleEvent, trackJob, dispatch. cbn [ev_job_id data].
      rewrite Hty. unfold_legacy. simpl.
      destruct (jobs s !! J) as [j|] eqn:Hj; simpl; lookups; rewrite ?Hj; auto. }
    destruct H as [H1 H2]. split; [ exact H1 | ].
    rewrite (selectJob_log _ _ _ H2).
    destruct (jobs s !! J); reflexivity.
Qed.

Lemma select_shows_only_agent_messages_witness :
  let entry := mkLog (Some "critic") (Some "scoring") Scenario.now in
  let note := mkLog (Some "generator") (Some "3 of 6") Scenario.now in
  let s1 := exec (handleEvent Scenario.said) initial in
  let s2 := exec (handleEvent Scenario.progressed) s1 in
  inherited "abc123" = false /\
  (agentLog s1 = [entry] /\ agentLog (exec (selectJob "abc123") s1) = [entry]) /\
  (agentLog s2 = [entry; note] /\ agentLog (exec (selectJob "abc123") s2) = [entry]).
Proof.
  split; [ reflexivity | ]. split.
  - apply (select_shows_only_agent_messages initial Scenario.said
             (Scenario.with_message "critic" "scoring") eq_refl eq_refl eq_refl);
      reflexivity.
  - apply (select_shows_only_agent_messages
             (exec (handleEvent Scenario.said) initial) Scenario.progressed
             (Scenario.with_message "generator" "3 of 6") eq_refl eq_refl eq_refl);
      reflexivity.
Defined.

Lemma find_snoc {A} (p : A -> bool) l x :
  List.find p (l ++ [x]) =
  match List.find p l with
  | Some y => Some y
  | None => if p x then Some x else None
  end.
Proof.
  induction l as [|a l IH]; simpl; [ reflexivity | ].
  destruct (p a); [ reflexivity | exact IH ].
Qed.

Lemma storeListed_lookup l m K :
  storeListed l m !! K =
  match List.find (fun j => l_job_id j =? K) (rev l) with
  | Some j => Some (listedJob j)
  | None => m !! K
  end.
Proof.
  revert m. induction l as [|a l IH]; intros m; simpl; [ reflexivity | ].
  unfold storeListed in *. simpl. rewrite IH, find_snoc.
  destruct (List.find _ (rev l)); [ reflexivity | ].
  destruct (l_job_id a =? K) eqn:E.
  - apply String.eqb_eq in E. subst K. apply lookup_insert_eq.
  - apply String.eqb_neq in E. now apply lookup_insert_ne.
Qed.

(** X23.  When the start-up listing arrives, every listed job is stored
    as a fresh summary (its listed stage and prompt, no images, scores or
    log; of two listings of one id the later wins), replacing what events
    had stored for it, and the other jobs are kept; when it fails, [jobs]
    is unchanged and the failure is logged.  In both cases the pipeline
    is reset to every stage pending. *)
Theorem init_reply_overwrites (s : State) (data : list Listed) :
  let s' := exec (init_resume (jobs_reply data)) s in
  let s'' := exec (init_resume failed_reply) s in
  (forall K,
     jobs s' !! K =
       match List.find (fun j => l_job_id j =? K) (rev data) with
       | Some j => Some (listedJob j)
       | None => jobs s !! K
       end) /\
  stagesView (dom s') = pipelineHTML None /\
  jobs s'' = jobs s /\
  stagesView (dom s'') = pipelineHTML None /\
  console (host s'') = (console (host s) ++ [("Failed to load jobs:", rejected)])%list.
Proof.
  simpl. repeat split. intros K. apply storeListed_lookup.
Qed.

Lemma renderImageCard_spec job img s :
  (drawableImage job img /\
   exists c, renderImageCard job img s = (Done c, s) /\ card_variant c = variant img) \/
  (~ drawableImage job img /\ exists e, renderImageCard job img s = (Thrown e, s)).
Proof.
  unfold drawableImage, renderImageCard.
  destruct (file_path img) as [p|]; simpl.
  2:{ right. split; [ intros [[? ?] _]; discriminate | eauto ]. }
  destruct (find _ (job_scores job)) as [sd|]; simpl.
  - destruct (scores sd) as [c|] eqn:Hc; simpl.
    + left. split; [ | eauto ]. split; [ eauto | ].
      intros sd' [= <-]. rewrite Hc. eauto.
    + right. split; [ | eauto ]. intros [_ H].
      destruct (H sd eq_refl) as [? ?]. congruence.
  - left. split; [ | eauto ]. split; [ eauto | ]. intros sd' [=].
Qed.

Lemma mapM_cards job l s :
  (Forall (drawableImage job) l /\
   exists cs, mapM (renderImageCard job) l s = (Done cs, s) /\
              map card_variant cs = map variant l) \/
  (~ Forall (drawableImage job) l /\
   exists e, mapM (renderImageCard job) l s = (Thrown e, s)).
Proof.
  induction l as [|img l IH]; simpl.
  - left. split; [ constructor | ]. exists []. auto.
  - destruct (renderImageCard_spec job img s) as [(Hok & c & Hc & Hv) | (Hno & e & He)].
    + rewrite Hc. destruct IH as [(Hl & cs & Hcs & Hvs) | (Hl & e & He)].
      * rewrite Hcs. left. split; [ constructor; assumption | ].
        exists (c :: cs). simpl. split; [ reflexivity | congruence ].
      * rewrite He. right. split; [ | eauto ].
        intros H. apply Hl. now inversion H.
    + rewrite He. right. split; [ | eauto ].
      intros H. apply Hno. now inversion H.
Qed.

(** X24.  [renderImages] returns exactly when every image of the job has
    a file path and the scores found for each image have their numbers;
    it then shows one card per image, in order; otherwise it throws and
    leaves the page as it was. *)
Theorem renderImages_draws_iff (job : Job) (s : State) :
  (fst (renderImages job s) = Done tt <-> drawable job) /\
  (drawable job ->
     map card_variant (imageGrid (dom (exec (renderImages job) s))) =
       map variant (images job)) /\
  (~ drawable job -> exec (renderImages job) s = s).
Proof.
  unfold drawable, renderImages, exec.
  destruct (images job) as [|img l] eqn:Hl.
  - simpl. repeat split; auto. intros H. destruct H. constructor.
  - destruct (mapM_cards job (img :: l) s) as [(Hok & cs & Hcs & Hvs) | (Hno & e & He)].
    + simpl in *. rewrite Hcs. simpl. repeat split; auto. contradiction.
    + simpl in *. rewrite He. simpl. repeat split; auto; try contradiction.
      discriminate.
Qed.

Lemma alter_is_insert (f : Job -> Job) J (m : gmap string Job) j :
  m !! J = Some j -> alter f J m = <[J := f j]> m.
Proof.
  intros Hj. apply map_eq. intros K. destruct (decide (K = J)) as [->|Hne].
  - rewrite lookup_alter_eq, lookup_insert_eq, Hj. reflexivity.
  - rewrite lookup_alter_ne, lookup_insert_ne by congruence. reflexivity.
Qed.

(** X25.  In the first dashboard, for a job id that is not a name
    inherited from [Object.prototype] and with nothing stored under
    [__proto__], an [image_generated] event without
    a file path throws, but only after the image has been pushed on its
    job: the image stays stored, and the image grid of the job as stored
    cannot be drawn. *)
Theorem image_without_path_is_stored (s : State) (e : Event) (d : EventData) :
  eventType (type e) = image_generated ->
  data e = Some d -> d_file_path d = None ->
  inherited (ev_job_id e) = false -> storeIntact s ->
  let s' := exec (handleEvent e) s in
  (exists err, fst (handleEvent e s) = Thrown err) /\
  exists job,
    jobs s' !! ev_job_id e = Some job /\
    images job =
      (from_option images [] (jobs s !! ev_job_id e) ++
       [mkImage (d_variant d) None (d_index d)])%list /\
    ~ drawable job /\
    forall s2, fst (renderImages job s2) <> Done tt.
Proof.
  destruct e as [ty J dd ts]. cbn [type ev_job_id data]. intros Hty -> Hfp _ _.
  set (img := mkImage (d_variant d) None (d_index d)).
  set (job0 := default (newJob J (d_prompt d)) (jobs s !! J)).
  assert (Hnd : ~ drawable (push_image img job0)).
  { unfold drawable. simpl. rewrite Forall_app. intros [_ H].
    inversion H as [|? ? [[? Hx] _] _]; subst. discriminate. }
  assert (Hthrow : forall s2, exists err,
            renderImages (push_image img job0) s2 = (Thrown err, s2)).
  { intros s2. unfold renderImages.
    pose proof (mapM_cards (push_image img job0) (images (push_image img job0)) s2)
      as Hm.
    destruct (images (push_image img job0)) as [|i l] eqn:Hi.
    - simpl in Hi. destruct (images job0); discriminate.
    - destruct Hm as [(Hok & _) | (_ & err & He)].
      + exfalso. apply Hnd. unfold drawable. rewrite Hi. exact Hok.
      + exists err. simpl. simpl in He. rewrite He. reflexivity. }
  assert (Hrun : handleEvent (mkEvent ty J (Some d) ts) s =
            renderImages (push_image img job0)
              (set_jobs (<[J := push_image img job0]> (jobs s)) s)).
  { unfold handleEvent, trackJob, dispatch. cbn [ev_job_id data].
    rewrite Hty. unfold on_job, the_job. simpl. rewrite ?Hfp.
    subst job0 img. destruct (jobs s !! J) as [j|] eqn:Hj; simpl; rewrite ?Hj, ?Hfp; simpl.
    - rewrite lookup_alter_eq, Hj. simpl.
      rewrite (alter_is_insert _ _ _ _ Hj). reflexivity.
    - rewrite lookup_alter_eq, lookup_insert_eq. simpl.
      rewrite (alter_is_insert _ _ _ _ (lookup_insert_eq _ _ _)).
      rewrite insert_insert_eq. reflexivity. }
  simpl. unfold exec. rewrite Hrun.
  destruct (Hthrow (set_jobs (<[J := push_image img job0]> (jobs s)) s)) as [err He].
  rewrite He. simpl. split; [ eauto | ].
  exists (push_image img job0). repeat split.
  - apply lookup_insert_eq.
  - subst job0. simpl. destruct (jobs s !! J); reflexivity.
  - exact Hnd.
  - intros s2 H. destruct (Hthrow s2) as [err2 He2]. rewrite He2 in H. discriminate.
Qed.

Lemma image_without_path_is_stored_witness :
  let s' := exec (handleEvent Scenario.pictured) initial in
  inherited "abc123" = false /\
  (exists err, fst (handleEvent Scenario.pictured initial) = Thrown err) /\
  exists job,
    jobs s' !! "abc123" = Some job /\
    images job = [mkImage (Some "v1") None None] /\
    ~ drawable job /\
    forall s2, fst (renderImages job s2) <> Done tt.
Proof.
  split; [ reflexivity | ].
  apply (image_without_path_is_stored initial Scenario.pictured
           (Scenario.with_variant "v1")); reflexivity.
Defined.

(** X26.  An event of an unrecognised type that carries its data changes
    nothing at all in the v2 dashboard; in the first dashboard, when its
    job id is not a name inherited from [Object.prototype] and nothing is
    stored under [__proto__], it still creates the default summary of a
    job that [jobs] does not hold, and changes nothing else. *)
Theorem unrecognised_events (e : Event) (d : EventData) :
  eventType (type e) = unrecognised -> data e = Some d ->
  (forall s, exec (Dashboard.onmessage (json_object e)) s = s) /\
  (inherited (ev_job_id e) = false ->
   forall s : State, storeIntact s ->
     exec (onmessage (json_object e)) s =
       match jobs s !! ev_job_id e with
       | Some _ => s
       | None =>
           set_jobs (<[ev_job_id e := newJob (ev_job_id e) (d_prompt d)]> (jobs s)) s
       end).
Proof.
  destruct e as [ty J dd ts]. cbn [type ev_job_id data]. intros Hty ->.
  split; [ intros s | intros _ s _ ].
  - unfold exec, Dashboard.onmessage, Dashboard.handleEvent. simpl. rewrite Hty.
    reflexivity.
  - unfold exec, onmessage, handleEvent, trackJob, dispatch. simpl. rewrite Hty.
    destruct (jobs s !! J); simpl; [ destruct s | ]; reflexivity.
Qed.

Lemma unrecognised_events_witness :
  inherited "abc123" = false /\ storeIntact initial /\
  exec (Dashboard.onmessage (json_object Scenario.pinged)) Dashboard.initial
    = Dashboard.initial /\
  exec (onmessage (json_object Scenario.pinged)) initial
    = set_jobs (<["abc123" := newJob "abc123" None]> (jobs initial)) initial.
Proof.
  split; [ reflexivity | ]. split; [ reflexivity | ].
  destruct (unrecognised_events Scenario.pinged noData eq_refl eq_refl)
    as [HD HL].
  split; [ exact (HD Dashboard.initial) | exact (HL eq_refl initial eq_refl) ].
Defined.
End LegacyMore.
